(** * sylar::Thread (src/thread/thread.cpp): a shallow embedding

    The thread wrapper is embedded as programs over a small effect
    signature: every access to a member of a [Thread] object, to the two
    thread-local variables and every call into the platform (pthread, the
    [gettid] system call, the semaphore) is one atomic effect.  The member
    functions of the source are sequences of such effects, written in the
    order of the source.  A handler gives the effects their meaning on an
    explicit system state; programs are run either alone ([exec]) or
    interleaved with the thread they spawn ([step], [run_sched]). *)

From Stdlib Require Import ZArith String Ascii List Lia.
From stdpp Require Import base option gmap strings list.

Local Open Scope string_scope.
Local Open Scope list_scope.
Local Open Scope Z_scope.

(** ** Data *)

(** The body of a unit of work, as far as this library can observe it: calls
    of the static members of [Thread] and actions of the user's own. *)
Inductive work_op : Type :=
| CallSetName (name : string)   (* Thread::SetName(name) *)
| CallGetName                   (* looks at Thread::GetName() *)
| CallGetThreadId               (* looks at Thread::GetThreadId() *)
| UserAction (n : nat).         (* anything else, e.g. setting a flag *)

Definition callable : Type := list work_op.

(** [std::function<void()>]: empty, or holding a callable. *)
Definition std_function : Type := option callable.

(** Exceptions the code can raise. *)
Inductive exn : Type :=
| logic_error (what : string)   (* std::logic_error(what) *)
| bad_function_call.            (* calling an empty std::function *)

(** Pieces written to [std::cerr] with [<<]. *)
Inductive cerr_item : Type :=
| CStr (s : string)
| CInt (z : Z)
| CEndl.

(** The members of [class Thread]. *)
Record Thread : Type := mkThread {
  m_id : Z;                 (* pid_t m_id *)
  m_thread : Z;             (* pthread_t m_thread *)
  m_cb : std_function;      (* std::function<void()> m_cb *)
  m_name : string;          (* std::string m_name *)
  m_semaphore : nat         (* Semaphore m_semaphore: its count *)
}.

Inductive disposition : Type := Joinable | Joined | Detached.

(** A platform thread: what the kernel and the pthread library keep for it,
    and its instances of the two [thread_local] variables of the source. *)
Record kthread : Type := mkKthread {
  k_tid : Z;                    (* the kernel's id, what gettid returns *)
  k_name : string;              (* the OS-level name (at most 15 characters) *)
  k_done : bool;                (* the entry function has returned *)
  k_disp : disposition;
  t_thread : option nat;        (* static thread_local Thread* t_thread *)
  t_thread_name : string        (* static thread_local std::string t_thread_name *)
}.

(** What happened, in order; each entry is paired with the pthread handle of
    the thread that did it. *)
Inductive event : Type :=
| EvTlsThread (p : option nat)
| EvTlsName (s : string)
| EvStoreId (this : nat) (id : Z)
| EvOsName (target : Z) (s : string) (rt : Z)
| EvTakeCb (this : nat) (taken : std_function)
| EvSignal (this : nat)
| EvWait (this : nat)
| EvCreate (this : nat) (rt : Z) (pt : Z)
| EvJoin (target : Z) (rt : Z)
| EvDetach (target : Z) (rt : Z)
| EvInvoke (w : callable)
| EvSawName (s : string)
| EvSawId (id : Z)
| EvUser (n : nat).

Record Sys : Type := mkSys {
  heap : gmap nat Thread;       (* the Thread objects, by address *)
  threads : gmap Z kthread;     (* the platform threads, by pthread_t *)
  cerr : list cerr_item;
  log : list (Z * event)
}.

(** What the platform answers to a call that can fail: the return code, and
    for a thread creation the handle and kernel id of the new thread.  The
    answer may depend on the whole history, which the state records. *)
Record answer : Type := mkAnswer { a_rt : Z; a_pt : Z; a_tid : Z }.

Definition platform : Type := Sys -> answer.

#[global] Instance work_op_eq_dec : EqDecision work_op.
Proof. solve_decision. Defined.
#[global] Instance exn_eq_dec : EqDecision exn.
Proof. solve_decision. Defined.
#[global] Instance disposition_eq_dec : EqDecision disposition.
Proof. solve_decision. Defined.
#[global] Instance event_eq_dec : EqDecision event.
Proof. solve_decision. Defined.

(** ** State updates *)

Definition set_heap (f : gmap nat Thread -> gmap nat Thread) (s : Sys) : Sys :=
  mkSys (f (heap s)) (threads s) (cerr s) (log s).

Definition set_threads (f : gmap Z kthread -> gmap Z kthread) (s : Sys) : Sys :=
  mkSys (heap s) (f (threads s)) (cerr s) (log s).

Definition put_cerr (items : list cerr_item) (s : Sys) : Sys :=
  mkSys (heap s) (threads s) (cerr s ++ items) (log s).

Definition record (t : Z) (e : event) (s : Sys) : Sys :=
  mkSys (heap s) (threads s) (cerr s) (log s ++ [(t, e)]).

Definition with_id (id : Z) (h : Thread) : Thread :=
  mkThread id (m_thread h) (m_cb h) (m_name h) (m_semaphore h).
Definition with_thread (pt : Z) (h : Thread) : Thread :=
  mkThread (m_id h) pt (m_cb h) (m_name h) (m_semaphore h).
Definition with_cb (cb : std_function) (h : Thread) : Thread :=
  mkThread (m_id h) (m_thread h) cb (m_name h) (m_semaphore h).
Definition with_name (n : string) (h : Thread) : Thread :=
  mkThread (m_id h) (m_thread h) (m_cb h) n (m_semaphore h).
Definition with_semaphore (c : nat) (h : Thread) : Thread :=
  mkThread (m_id h) (m_thread h) (m_cb h) (m_name h) c.

Definition with_k_name (n : string) (k : kthread) : kthread :=
  mkKthread (k_tid k) n (k_done k) (k_disp k) (t_thread k) (t_thread_name k).
Definition with_k_done (b : bool) (k : kthread) : kthread :=
  mkKthread (k_tid k) (k_name k) b (k_disp k) (t_thread k) (t_thread_name k).
Definition with_k_disp (d : disposition) (k : kthread) : kthread :=
  mkKthread (k_tid k) (k_name k) (k_done k) d (t_thread k) (t_thread_name k).
Definition with_t_thread (p : option nat) (k : kthread) : kthread :=
  mkKthread (k_tid k) (k_name k) (k_done k) (k_disp k) p (t_thread_name k).
Definition with_t_thread_name (n : string) (k : kthread) : kthread :=
  mkKthread (k_tid k) (k_name k) (k_done k) (k_disp k) (t_thread k) n.

(** [std::string::c_str()] as a C function reads it: up to the first NUL. *)
Fixpoint c_str (s : string) : string :=
  match s with
  | EmptyString => EmptyString
  | String c s' => if Ascii.eqb c Ascii.zero then EmptyString else String c (c_str s')
  end.

(** [s.substr(0, n)]: the first [n] characters, or all of [s] if it is
    shorter. *)
Definition substr0 (n : nat) (s : string) : string := String.substring 0 n s.

(** ** Effects and programs *)

Inductive eff : Type -> Type :=
(* the thread_local variables of the calling thread *)
| TlsGetThread : eff (option nat)
| TlsSetThread (p : option nat) : eff unit
| TlsGetName : eff string
| TlsSetName (s : string) : eff unit
(* members of the object at address [this] *)
| InitMembers (this : nat) (cb : std_function) (name : string) : eff unit
| DestroyMembers (this : nat) : eff unit
| LoadName (this : nat) : eff string
| StoreName (this : nat) (s : string) : eff unit
| StoreId (this : nat) (id : Z) : eff unit
| LoadThread (this : nat) : eff Z
| StoreThread (this : nat) (pt : Z) : eff unit
| SwapCb (this : nat) (cb : std_function) : eff std_function
| SemWait (this : nat) : eff unit
| SemSignal (this : nat) : eff unit
(* the platform *)
| SysGettid : eff Z
| PthreadSelf : eff Z
| PthreadSetname (target : Z) (s : string) : eff Z
| PthreadCreate (this : nat) (arg : nat) : eff Z
| PthreadJoin (target : Z) : eff Z
| PthreadDetach (target : Z) : eff Z
| Cerr (items : list cerr_item) : eff unit
(* a mark in the log *)
| Emit (e : event) : eff unit.

Inductive Prog (A : Type) : Type :=
| Ret (a : A)
| Throw (e : exn)
| Vis {X : Type} (e : eff X) (k : X -> Prog A).

Arguments Ret {A} a.
Arguments Throw {A} e.
Arguments Vis {A X} e k.

Fixpoint bind {A B : Type} (p : Prog A) (f : A -> Prog B) : Prog B :=
  match p with
  | Ret a => f a
  | Throw e => Throw e
  | Vis e k => Vis e (fun x => bind (k x) f)
  end.

Definition perform {X : Type} (e : eff X) : Prog X := Vis e Ret.

Declare Scope prog_scope.
Delimit Scope prog_scope with prog.
Notation "x <- p ;; k" := (bind p (fun x => k))
  (at level 100, p at next level, right associativity) : prog_scope.
Notation "p ;; k" := (bind p (fun _ => k))
  (at level 100, right associativity) : prog_scope.
Local Open Scope prog_scope.

(** When a constructor exits by an exception the members that were already
    constructed are destroyed and the object never comes to exist:
    [unwind p c] runs [c] on the exceptional exits of [p]. *)
Fixpoint unwind {A : Type} (p : Prog A) (c : Prog unit) : Prog A :=
  match p with
  | Ret a => Ret a
  | Throw e => c ;; Throw e
  | Vis e k => Vis e (fun x => unwind (k x) c)
  end.

(** ** Members declared in thread.h *)

(** Modelled from the spec: thread.h, which declares the members and their
    default initialisers, is not among the sources.  The data model gives
    the numeric id as 0 (unset) until the thread has started. *)
Definition default_m_id : Z := 0.

(** Modelled from the spec: the default of [m_thread] in thread.h is not
    among the sources; the constructor overwrites it through
    [pthread_create] before reading it. *)
Definition default_m_thread : Z := 0.

(** Modelled from the spec: class Semaphore of thread.h is not among the
    sources.  The readiness signal is one per handle, nothing has been
    signalled when the handle is made, [wait] blocks until a signal has
    occurred and consumes it, and a signal before the wait is not lost. *)
Definition semaphore_initial : nat := 0%nat.

Definition semaphore_wait (count : nat) : option nat :=
  match count with
  | O => None
  | S c => Some c
  end.

Definition semaphore_signal (count : nat) : nat := S count.

(** ** The meaning of the effects *)

Inductive result (X : Type) : Type :=
| Ok (x : X) (s : Sys)      (* done, with this value and new state *)
| Blocked                   (* the calling thread has to wait *)
| Fault.                    (* no behaviour: a dead object, an unknown thread *)

Arguments Ok {X} x s.
Arguments Blocked {X}.
Arguments Fault {X}.

Definition on_object {X : Type} (this : nat) (s : Sys) (f : Thread -> result X) : result X :=
  match heap s !! this with
  | Some h => f h
  | None => Fault
  end.

Definition on_self {X : Type} (t : Z) (s : Sys) (f : kthread -> result X) : result X :=
  match threads s !! t with
  | Some k => f k
  | None => Fault
  end.

Definition update_object (this : nat) (f : Thread -> Thread) (s : Sys) : result unit :=
  on_object this s (fun h => Ok tt (set_heap <[this := f h]> s)).

(** errno values the platform reports by itself *)
Definition ESRCH : Z := 3.
Definition EINVAL : Z := 22.
Definition ERANGE : Z := 34.

(** A thread made by [pthread_create]: joinable, running, with the OS-level
    name of its creator and fresh thread-local variables ([t_thread] is
    [nullptr], [t_thread_name] is "UNKNOWN", lines 10-11 of the source). *)
Definition new_kthread (tid : Z) (creator : kthread) : kthread :=
  mkKthread tid (k_name creator) false Joinable None "UNKNOWN".

(** The effects of thread [t] on the state.  Members are read and written
    in the object at [this]; a thread-local variable is the one of [t].
    For the platform:
    - [pthread_create] asks the platform; on success the new thread has a
      handle that is not 0 and not in use (glibc's [pthread_t] is the address
      of the thread's descriptor) and a positive kernel id, and the handle
      is written to [m_thread]; on failure nothing changes;
    - [pthread_join] asks the platform; an error code is returned at once,
      otherwise the caller waits until the thread has ended and the thread
      then stops being joinable;
    - [pthread_detach] never waits: a joinable thread becomes detached,
      anything else is an error code;
    - [pthread_setname_np] refuses names longer than 15 characters. *)
Definition handle {X : Type} (P : platform) (t : Z) (e : eff X) (s : Sys) : result X :=
  match e in eff X return result X with
  | TlsGetThread => on_self t s (fun k => Ok (t_thread k) s)
  | TlsSetThread p =>
      on_self t s (fun k =>
        Ok tt (record t (EvTlsThread p) (set_threads <[t := with_t_thread p k]> s)))
  | TlsGetName => on_self t s (fun k => Ok (t_thread_name k) s)
  | TlsSetName n =>
      on_self t s (fun k =>
        Ok tt (record t (EvTlsName n) (set_threads <[t := with_t_thread_name n k]> s)))
  | InitMembers this cb name =>
      match heap s !! this with
      | Some _ => Fault
      | None =>
          Ok tt (set_heap
                   <[this := mkThread default_m_id default_m_thread cb name semaphore_initial]> s)
      end
  | DestroyMembers this =>
      on_object this s (fun _ => Ok tt (set_heap (delete this) s))
  | LoadName this => on_object this s (fun h => Ok (m_name h) s)
  | StoreName this n => update_object this (with_name n) s
  | StoreId this id =>
      on_object this s (fun h =>
        Ok tt (record t (EvStoreId this id) (set_heap <[this := with_id id h]> s)))
  | LoadThread this => on_object this s (fun h => Ok (m_thread h) s)
  | StoreThread this pt => update_object this (with_thread pt) s
  | SwapCb this cb =>
      on_object this s (fun h =>
        Ok (m_cb h) (record t (EvTakeCb this (m_cb h)) (set_heap <[this := with_cb cb h]> s)))
  | SemWait this =>
      on_object this s (fun h =>
        match semaphore_wait (m_semaphore h) with
        | Some c => Ok tt (record t (EvWait this) (set_heap <[this := with_semaphore c h]> s))
        | None => Blocked
        end)
  | SemSignal this =>
      on_object this s (fun h =>
        Ok tt (record t (EvSignal this)
                 (set_heap <[this := with_semaphore (semaphore_signal (m_semaphore h)) h]> s)))
  | SysGettid => on_self t s (fun k => Ok (k_tid k) s)
  | PthreadSelf => on_self t s (fun _ => Ok t s)
  | PthreadSetname target n =>
      match threads s !! target with
      | Some k =>
          if (String.length n <=? 15)%nat
          then Ok 0 (record t (EvOsName target n 0)
                       (set_threads <[target := with_k_name n k]> s))
          else Ok ERANGE (record t (EvOsName target n ERANGE) s)
      | None => Ok ESRCH (record t (EvOsName target n ESRCH) s)
      end
  | PthreadCreate this arg =>
      on_object this s (fun h => on_self t s (fun k =>
        let a := P s in
        if a_rt a =? 0 then
          match threads s !! a_pt a with
          | None =>
              if negb (a_pt a =? 0) && (0 <? a_tid a)
              then Ok 0 (record t (EvCreate this 0 (a_pt a))
                           (set_threads <[a_pt a := new_kthread (a_tid a) k]>
                              (set_heap <[this := with_thread (a_pt a) h]> s)))
              else Fault
          | Some _ => Fault
          end
        else Ok (a_rt a) (record t (EvCreate this (a_rt a) 0) s)))
  | PthreadJoin target =>
      let rt := a_rt (P s) in
      if rt =? 0 then
        match threads s !! target with
        | Some k =>
            match k_disp k with
            | Joinable =>
                if target =? t then Fault
                else if k_done k
                then Ok 0 (record t (EvJoin target 0)
                             (set_threads <[target := with_k_disp Joined k]> s))
                else Blocked
            | _ => Fault
            end
        | None => Fault
        end
      else Ok rt (record t (EvJoin target rt) s)
  | PthreadDetach target =>
      match threads s !! target with
      | Some k =>
          match k_disp k with
          | Joinable => Ok 0 (record t (EvDetach target 0)
                                (set_threads <[target := with_k_disp Detached k]> s))
          | Detached => Ok EINVAL (record t (EvDetach target EINVAL) s)
          | Joined => Ok ESRCH (record t (EvDetach target ESRCH) s)
          end
      | None => Ok ESRCH (record t (EvDetach target ESRCH) s)
      end
  | Cerr items => Ok tt (put_cerr items s)
  | Emit ev => Ok tt (record t ev s)
  end.

(** ** The member functions of src/thread/thread.cpp *)

(** [pid_t Thread::GetThreadId()] *)
Definition GetThreadId : Prog Z := perform SysGettid.

(** [Thread* Thread::GetThis()] *)
Definition GetThis : Prog (option nat) := perform TlsGetThread.

(** [const std::string& Thread::GetName()] *)
Definition GetName : Prog string := perform TlsGetName.

(** [void Thread::SetName(const std::string &name)] *)
Definition SetName (name : string) : Prog unit :=
  p <- perform TlsGetThread ;;
  match p with
  | Some th => perform (StoreName th name)
  | None => Ret tt
  end ;;
  perform (TlsSetName name).

(** [Thread::Thread(std::function<void()> cb, const std::string &name)],
    for the object at address [this] *)
Definition Thread_ctor (this : nat) (cb : std_function) (name : string) : Prog unit :=
  perform (InitMembers this cb name) ;;
  rt <- perform (PthreadCreate this this) ;;
  if negb (rt =? 0) then
    perform (Cerr [CStr "pthread_create thread fail, rt="; CInt rt;
                   CStr " name="; CStr name]) ;;
    Throw (logic_error "pthread_create error")
  else
    perform (SemWait this).

(** Making a [Thread] object at [this]: the constructor, and the members
    destroyed again if it throws. *)
Definition construct (this : nat) (cb : std_function) (name : string) : Prog unit :=
  unwind (Thread_ctor this cb name) (perform (DestroyMembers this)).

(** [Thread::~Thread()] (the body) *)
Definition Thread_dtor (this : nat) : Prog unit :=
  th <- perform (LoadThread this) ;;
  if negb (th =? 0) then
    th' <- perform (LoadThread this) ;;
    _ <- perform (PthreadDetach th') ;;
    perform (StoreThread this 0)
  else Ret tt.

(** [void Thread::join()] *)
Definition join (this : nat) : Prog unit :=
  th <- perform (LoadThread this) ;;
  if negb (th =? 0) then
    th' <- perform (LoadThread this) ;;
    rt <- perform (PthreadJoin th') ;;
    if negb (rt =? 0) then
      n <- perform (LoadName this) ;;
      perform (Cerr [CStr "pthread_join failed, rt = "; CInt rt;
                     CStr ", name = "; CStr n; CEndl]) ;;
      Throw (logic_error "pthread_join error")
    else
      perform (StoreThread this 0)
  else Ret tt.

(** What a unit of work does when it is called. *)
Definition do_op (o : work_op) : Prog unit :=
  match o with
  | CallSetName n => SetName n
  | CallGetName => n <- GetName ;; perform (Emit (EvSawName n))
  | CallGetThreadId => id <- GetThreadId ;; perform (Emit (EvSawId id))
  | UserAction n => perform (Emit (EvUser n))
  end.

Fixpoint body (w : callable) : Prog unit :=
  match w with
  | [] => Ret tt
  | o :: w' => do_op o ;; body w'
  end.

(** [cb()] on a [std::function<void()>] *)
Definition invoke (cb : std_function) : Prog unit :=
  match cb with
  | None => Throw bad_function_call
  | Some w => perform (Emit (EvInvoke w)) ;; body w
  end.

(** [void* Thread::run(void* arg)] *)
Definition run (arg : nat) : Prog unit :=
  let thread := arg in
  perform (TlsSetThread (Some thread)) ;;
  n <- perform (LoadName thread) ;;
  perform (TlsSetName n) ;;
  id <- GetThreadId ;;
  perform (StoreId thread id) ;;
  self <- perform PthreadSelf ;;
  n' <- perform (LoadName thread) ;;
  _ <- perform (PthreadSetname self (c_str (substr0 15 n'))) ;;
  cb <- perform (SwapCb thread None) ;;
  perform (SemSignal thread) ;;
  invoke cb ;;
  Ret tt.

(** ** Running one program to its end *)

Inductive outcome (A : Type) : Type :=
| Returned (a : A) (s : Sys)
| Raised (e : exn) (s : Sys)
| Blocks (s : Sys)
| Faults (s : Sys).

Arguments Returned {A} a s.
Arguments Raised {A} e s.
Arguments Blocks {A} s.
Arguments Faults {A} s.

Fixpoint exec {A : Type} (P : platform) (t : Z) (p : Prog A) (s : Sys) : outcome A :=
  match p with
  | Ret a => Returned a s
  | Throw e => Raised e s
  | Vis e k =>
      match handle P t e s with
      | Ok x s' => exec P t (k x) s'
      | Blocked => Blocks s
      | Fault => Faults s
      end
  end.

(** ** The creating thread and the thread it spawns, interleaved *)

Inductive who : Type := Creator | Spawned.

Record World : Type := mkWorld {
  w_creator : Z;                        (* pthread handle of the creating thread *)
  w_sys : Sys;
  w_main : Prog unit;                   (* what the creating thread still has to do *)
  w_child : option (Z * Prog unit)      (* the spawned thread, once it exists *)
}.

(** The thread a successful [pthread_create] starts: its handle and the
    argument handed to the entry function. *)
Definition spawned {X : Type} (P : platform) (s : Sys) (e : eff X) : X -> option (Z * nat) :=
  match e in eff X return X -> option (Z * nat) with
  | PthreadCreate this arg => fun rt => if rt =? 0 then Some (a_pt (P s), arg) else None
  | _ => fun _ => None
  end.

(** One atomic effect of thread [t], whose remaining program is [p]. *)
Definition advance (P : platform) (t : Z) (p : Prog unit) (s : Sys)
  : option (Sys * Prog unit * option (Z * nat)) :=
  match p with
  | Vis e k =>
      match handle P t e s with
      | Ok x s' => Some (s', k x, spawned P s e x)
      | _ => None
      end
  | _ => None
  end.

(** The entry function has returned: the platform thread ends. *)
Definition finish (pt : Z) (s : Sys) : option Sys :=
  match threads s !! pt with
  | Some k => if k_done k then None else Some (set_threads <[pt := with_k_done true k]> s)
  | None => None
  end.

(** A step of the chosen thread; [None] when it cannot move (it waits, it
    has ended, it died of an exception).  The entry function of a new
    thread is always [Thread::run] (line 57 of the source). *)
Definition step (P : platform) (x : who) (w : World) : option World :=
  match x with
  | Creator =>
      match advance P (w_creator w) (w_main w) (w_sys w) with
      | Some (s', p', None) => Some (mkWorld (w_creator w) s' p' (w_child w))
      | Some (s', p', Some (pt, arg)) =>
          match w_child w with
          | None => Some (mkWorld (w_creator w) s' p' (Some (pt, run arg)))
          | Some _ => None
          end
      | None => None
      end
  | Spawned =>
      match w_child w with
      | Some (pt, Ret _) =>
          match finish pt (w_sys w) with
          | Some s' => Some (mkWorld (w_creator w) s' (w_main w) (w_child w))
          | None => None
          end
      | Some (pt, p) =>
          match advance P pt p (w_sys w) with
          | Some (s', p', None) => Some (mkWorld (w_creator w) s' (w_main w) (Some (pt, p')))
          | _ => None
          end
      | None => None
      end
  end.

(** A schedule names the thread to move next; a thread that cannot move
    when it is named is passed over. *)
Fixpoint run_sched (P : platform) (sched : list who) (w : World) : World :=
  match sched with
  | [] => w
  | x :: sched' =>
      match step P x w with
      | Some w' => run_sched P sched' w'
      | None => run_sched P sched' w
      end
  end.

(** A process with its initial thread only. *)
Definition boot (mt : Z) (k0 : kthread) : Sys :=
  mkSys ∅ {[mt := k0]} [] [].

(** The creating thread makes a [Thread] at [this] and goes on with [rest]. *)
Definition start (mt : Z) (k0 : kthread) (this : nat) (cb : std_function)
    (name : string) (rest : Prog unit) : World :=
  mkWorld mt (boot mt k0) (construct this cb name ;; rest) None.

(** ** Where a thread is in its program *)

(** The value an effect gave back. *)
Inductive ans : Type :=
| AUnit
| AZ (z : Z)
| AStr (s : string)
| AFn (f : std_function)
| APtr (p : option nat).

Definition reply {X : Type} (e : eff X) (a : ans) : option X :=
  match e in eff X return option X with
  | TlsGetThread => match a with APtr p => Some p | _ => None end
  | TlsGetName | LoadName _ => match a with AStr s => Some s | _ => None end
  | SwapCb _ _ => match a with AFn f => Some f | _ => None end
  | LoadThread _ | SysGettid | PthreadSelf | PthreadSetname _ _
  | PthreadCreate _ _ | PthreadJoin _ | PthreadDetach _ =>
      match a with AZ z => Some z | _ => None end
  | TlsSetThread _ | TlsSetName _ | InitMembers _ _ _ | DestroyMembers _
  | StoreName _ _ | StoreId _ _ | StoreThread _ _ | SemWait _ | SemSignal _
  | Cerr _ | Emit _ =>
      match a with AUnit => Some tt | _ => None end
  end.

(** The program that remains of [p] once its first effects have given back
    the values [l]. *)
Definition resume {A : Type} (p : Prog A) (a : ans) : Prog A :=
  match p with
  | Vis e k => match reply e a with Some x => k x | None => p end
  | _ => p
  end.

Definition resumes {A : Type} (p : Prog A) (l : list ans) : Prog A :=
  fold_left resume l p.

(** ** The life of a handle, as its owner drives it *)

(** What can happen to a constructed handle: its owner calls [join()], the
    handle is destroyed ([~Thread()]), or the spawned thread ends by itself. *)
Inductive life_event : Type := DoJoin | DoDestroy | ThreadEnds.

Definition life_step (P : platform) (t : Z) (this : nat) (pt : Z)
    (ev : life_event) (s : Sys) : option Sys :=
  match ev with
  | DoJoin =>
      match exec P t (join this) s with
      | Returned _ s' | Raised _ s' => Some s'
      | _ => None
      end
  | DoDestroy =>
      match exec P t (Thread_dtor this) s with
      | Returned _ s' | Raised _ s' => Some s'
      | _ => None
      end
  | ThreadEnds =>
      match finish pt s with
      | Some s' => Some s'
      | None => Some s
      end
  end.

Fixpoint run_life (P : platform) (t : Z) (this : nat) (pt : Z)
    (evs : list life_event) (s : Sys) : option Sys :=
  match evs with
  | [] => Some s
  | ev :: evs' =>
      match life_step P t this pt ev s with
      | Some s' => run_life P t this pt evs' s'
      | None => None
      end
  end.

(** The return codes of the [pthread_join] and [pthread_detach] calls that
    were given the handle [pt], in the order of the calls. *)
Fixpoint calls_on (pt : Z) (l : list (Z * event)) : list Z :=
  match l with
  | [] => []
  | (_, EvJoin target rt) :: l' | (_, EvDetach target rt) :: l' =>
      if target =? pt then rt :: calls_on pt l' else calls_on pt l'
  | _ :: l' => calls_on pt l'
  end.

(** No call comes after one that succeeded (returned 0). *)
Fixpoint released_once (rts : list Z) : bool :=
  match rts with
  | [] => true
  | rt :: rts' =>
      if rt =? 0 then match rts' with [] => true | _ => false end
      else released_once rts'
  end.

(** Does the unit of work rename its thread? *)
Definition is_rename (o : work_op) : bool :=
  match o with
  | CallSetName _ => true
  | _ => false
  end.

Definition renames (w : callable) : bool := existsb is_rename w.

(** A platform that answers every call in the same way. *)
Definition always (rt pt tid : Z) : platform := fun _ => mkAnswer rt pt tid.

(** ** Concrete processes

    A process whose initial thread has the handle 1 and the kernel id 100;
    handles are made at address 5, and the platform gives the spawned
    thread the handle 7 and the kernel id 101. *)
Definition main_thread : kthread :=
  mkKthread 100 "a.out" false Joinable None "UNKNOWN".

Definition sys_main : Sys := boot 1 main_thread.

(** A handle whose thread is past the handshake and whose callable has been
    taken; the thread is still running, or has ended. *)
Definition sys_running : Sys :=
  mkSys {[5%nat := mkThread 101 7 None "worker-1" 0%nat]}
        (<[7 := mkKthread 101 "worker-1" false Joinable (Some 5%nat) "worker-1"]>
           {[1 := main_thread]})
        [] [].

Definition sys_ended : Sys :=
  mkSys {[5%nat := mkThread 101 7 None "worker-1" 0%nat]}
        (<[7 := mkKthread 101 "worker-1" true Joinable (Some 5%nat) "worker-1"]>
           {[1 := main_thread]})
        [] [].

Definition long_name : string := "worker-with-a-long-name".

(** The state in which [pthread_create] has just made thread 7 for the
    handle at address 5. *)
Definition sys_spawned (w : callable) : Sys :=
  mkSys {[5%nat := mkThread default_m_id 7 (Some w) long_name 0%nat]}
        (<[7 := new_kthread 101 main_thread]> {[1 := main_thread]})
        [] [(1, EvCreate 5 0 7)].

(** A unit of work that looks at its id, renames its thread and sets a
    flag, and one that does not rename. *)
Definition demo_work : callable :=
  [CallGetThreadId; CallSetName "renamed"; UserAction 3].

Definition quiet_work : callable := [CallGetName; UserAction 3].

(** The creating thread runs the constructor up to its wait, the spawned
    thread runs the trampoline up to the signal, the wait returns, and the
    spawned thread begins the work. *)
Definition demo_sched : list who :=
  [Creator; Creator] ++ repeat Spawned 10 ++ [Creator; Spawned; Spawned].

(** The error code [pthread_join] reports for a deadlock. *)
Definition EDEADLK : Z := 35.

(** A platform on which the first [pthread_join] of thread 7 fails and later
    calls succeed. *)
Definition join_fails_once : platform :=
  fun s => match calls_on 7 (log s) with
           | [] => mkAnswer EDEADLK 0 0
           | _ => mkAnswer 0 0 0
           end.

(** Events a unit of work leaves by itself. *)
Definition user_event (e : event) : bool :=
  match e with
  | EvSawName _ | EvSawId _ | EvUser _ => true
  | _ => false
  end.

(** Events of the body of a unit of work: its own, and renaming the thread. *)
Definition minor (e : event) : bool :=
  match e with
  | EvTlsName _ => true
  | _ => user_event e
  end.

Definition by_work (pt : Z) (ev : Z * event) : Prop := ev.1 = pt /\ minor ev.2 = true.

(** Who invoked which callable, in order. *)
Fixpoint invocations (l : list (Z * event)) : list (Z * callable) :=
  match l with
  | [] => []
  | (t, EvInvoke w) :: l' => (t, w) :: invocations l'
  | _ :: l' => invocations l'
  end.

Definition all_failed (rts : list Z) : bool := forallb (fun rt => negb (rt =? 0)) rts.

(** The field [m_thread] is set exactly while the thread can still be
    joined; until it is released every call on the handle has failed, and
    after the release no call follows. *)
Definition life_inv (this : nat) (pt : Z) (s : Sys) : Prop :=
  exists h k, heap s !! this = Some h /\ threads s !! pt = Some k /\
    ((m_thread h = pt /\ k_disp k = Joinable /\ all_failed (calls_on pt (log s)) = true) \/
     (m_thread h = 0 /\ k_disp k <> Joinable /\
      released_once (calls_on pt (log s)) = true)).

(** ** Code that leaves the handshake alone *)

(** Effects open to code that runs beside or after the handshake: the public
    members of [Thread] and the platform calls on existing threads, but not
    the steps private to the constructor and to [Thread::run]. *)
Definition calm_eff {X : Type} (e : eff X) : bool :=
  match e with
  | TlsGetThread | TlsGetName | TlsSetName _
  | LoadName _ | StoreName _ _ | LoadThread _ | StoreThread _ _
  | SysGettid | PthreadSelf | PthreadSetname _ _
  | PthreadJoin _ | PthreadDetach _ | Cerr _ => true
  | Emit ev => user_event ev
  | TlsSetThread _ | InitMembers _ _ _ | DestroyMembers _ | StoreId _ _
  | SwapCb _ _ | SemWait _ | SemSignal _ | PthreadCreate _ _ => false
  end.

Inductive calm {A : Type} : Prog A -> Prop :=
| calm_Ret a : calm (Ret a)
| calm_Throw e : calm (Throw e)
| calm_Vis {X : Type} (e : eff X) (k : X -> Prog A) :
    calm_eff e = true -> (forall x, calm (k x)) -> calm (Vis e k).

(** ** The states of the handshake *)

Section HandshakeStates.
Variables (mt : Z) (k0 : kthread) (this : nat) (cb : std_function)
          (name : string) (rest : Prog unit).

(** The creating thread after its first effects gave back [l]. *)
Definition main_pc (l : list ans) : Prog unit :=
  resumes (construct this cb name ;; rest) l.

(** The spawned thread after its first effects gave back [l]. *)
Definition child_pc (l : list ans) : Prog unit :=
  resumes (run this) l.

Section Spawned.
Variables (pt tid : Z).

(** What the ten effects of the trampoline before the call of the work
    give back, and what they write to the log. *)
Definition init_answers : list ans :=
  [AUnit; AStr name; AUnit; AZ tid; AUnit; AZ pt; AStr name; AZ 0; AFn cb; AUnit].

Definition init_events : list event :=
  [EvTlsThread (Some this); EvTlsName name; EvStoreId this tid;
   EvOsName pt (c_str (substr0 15 name)) 0; EvTakeCb this cb; EvSignal this].

Definition events_after (i : nat) : nat :=
  match i with
  | 0 => 0 | 1 | 2 => 1 | 3 | 4 => 2 | 5 | 6 | 7 => 3 | 8 => 4 | 9 => 5 | _ => 6
  end%nat.

(** The handle and the spawned thread after [i] effects of the
    trampoline. *)
Definition handle_at (i : nat) : Thread :=
  mkThread (if (5 <=? i)%nat then tid else default_m_id) pt
           (if (9 <=? i)%nat then None else cb) name
           (if (10 <=? i)%nat then 1%nat else 0%nat).

Definition kthread_at (i : nat) : kthread :=
  mkKthread tid (if (8 <=? i)%nat then c_str (substr0 15 name) else k_name k0)
            false Joinable
            (if (1 <=? i)%nat then Some this else None)
            (if (3 <=? i)%nat then name else "UNKNOWN").

Definition log_at (i : nat) : list (Z * event) :=
  (mt, EvCreate this 0 pt) :: map (pair pt) (firstn (events_after i) init_events).

(** The spawned thread once it has signalled: about to call the work,
    or past that call. *)
Definition child_ok (pc : Prog unit) (later : list (Z * event)) : Prop :=
  (pc = child_pc init_answers /\ invocations later = []) \/
  (calm pc /\ exists w, cb = Some w /\ invocations later = [(pt, w)]).
End Spawned.

(** The creating thread once the spawned thread has signalled: still at
    its wait, or past it. *)
Definition main_ok (pm : Prog unit) : Prop :=
  pm = main_pc [AUnit; AZ 0] \/ calm pm.

(** The states the two threads can be in together: the constructor before
    and at [pthread_create], the constructor failing, the trampoline before
    its signal while the constructor waits, and both threads after the
    signal. *)
Inductive Inv : World -> Prop :=
| inv_start : Inv (start mt k0 this cb name rest)
| inv_made s :
    heap s !! this
      = Some (mkThread default_m_id default_m_thread cb name semaphore_initial) ->
    threads s = {[mt := k0]} ->
    log s = [] ->
    Inv (mkWorld mt s (main_pc [AUnit]) None)
| inv_failed s rt n :
    rt <> 0 -> (n <= 2)%nat ->
    log s = [(mt, EvCreate this rt 0)] ->
    Inv (mkWorld mt s (main_pc ([AUnit; AZ rt] ++ repeat AUnit n)) None)
| inv_init s pt tid i :
    (i <= 9)%nat -> pt <> mt -> pt <> 0 -> 0 < tid ->
    heap s !! this = Some (handle_at pt tid i) ->
    threads s !! pt = Some (kthread_at tid i) ->
    log s = log_at pt tid i ->
    Inv (mkWorld mt s (main_pc [AUnit; AZ 0])
           (Some (pt, child_pc (firstn i (init_answers pt tid)))))
| inv_ready s pt tid pm pc later h k :
    pt <> mt -> 0 < tid ->
    heap s !! this = Some h -> m_id h = tid ->
    threads s !! pt = Some k -> k_tid k = tid -> t_thread k = Some this ->
    log s = log_at pt tid 10 ++ later ->
    main_ok pm -> child_ok pt tid pc later ->
    Inv (mkWorld mt s pm (Some (pt, pc))).
End HandshakeStates.

(** What a calm effect leaves as it was. *)
Definition kept (s s' : Sys) : Prop :=
  (forall th h, heap s !! th = Some h ->
     exists h', heap s' !! th = Some h' /\ m_id h' = m_id h) /\
  (forall p k, threads s !! p = Some k ->
     exists k', threads s' !! p = Some k' /\ k_tid k' = k_tid k /\ t_thread k' = t_thread k) /\
  exists evs, log s' = log s ++ evs /\ invocations evs = [].

(** ** Further definitions *)

(** What the body of a unit of work leaves in the log when it runs on the
    thread [pt] with kernel id [tid] and current name [cur]. *)
Fixpoint work_trace (pt tid : Z) (cur : string) (w : callable) : list (Z * event) :=
  match w with
  | [] => []
  | CallSetName n :: w' => (pt, EvTlsName n) :: work_trace pt tid n w'
  | CallGetName :: w' => (pt, EvSawName cur) :: work_trace pt tid cur w'
  | CallGetThreadId :: w' => (pt, EvSawId tid) :: work_trace pt tid cur w'
  | UserAction n :: w' => (pt, EvUser n) :: work_trace pt tid cur w'
  end.

(** The name after the work: the last one it set, or [cur]. *)
Fixpoint final_name (cur : string) (w : callable) : string :=
  match w with
  | [] => cur
  | CallSetName n :: w' => final_name n w'
  | _ :: w' => final_name cur w'
  end.

(** The state in which the trampoline of thread [pt] calls the work: the
    handle [h] and the thread [k] as the trampoline found them, updated. *)
Definition at_call (pt : Z) (this : nat) (h : Thread) (k : kthread) (s : Sys) : Sys :=
  mkSys (<[this := mkThread (k_tid k) (m_thread h) None (m_name h) (S (m_semaphore h))]>
           (heap s))
        (<[pt := mkKthread (k_tid k) (c_str (substr0 15 (m_name h))) (k_done k) (k_disp k)
                           (Some this) (m_name h)]> (threads s))
        (cerr s)
        (log s ++ [(pt, EvTlsThread (Some this));
                   (pt, EvTlsName (m_name h));
                   (pt, EvStoreId this (k_tid k));
                   (pt, EvOsName pt (c_str (substr0 15 (m_name h))) 0);
                   (pt, EvTakeCb this (m_cb h));
                   (pt, EvSignal this)]).

(** Has the string no NUL character? *)
Fixpoint nul_free (s : string) : bool :=
  match s with
  | EmptyString => true
  | String c s' => negb (Ascii.eqb c Ascii.zero) && nul_free s'
  end.

(** Does the effect write [t_thread]? *)
Definition sets_t_thread {X : Type} (e : eff X) : bool :=
  match e with
  | TlsSetThread _ => true
  | _ => false
  end.

(** Does the effect write a [pthread_join] entry to the log without calling
    [pthread_join]? *)
Definition forges_join {X : Type} (e : eff X) : bool :=
  match e with
  | Emit (EvJoin _ _) => true
  | _ => false
  end.

(** The next effect of a program, tested. *)
Definition next_effect (f : forall X : Type, eff X -> bool) (p : Prog unit) : bool :=
  match p with
  | Vis e _ => f _ e
  | _ => false
  end.

(** The creating thread has the [t_thread] it began with. *)
Definition creator_unowned (k0 : kthread) (w : World) : Prop :=
  exists km, threads (w_sys w) !! w_creator w = Some km /\ t_thread km = t_thread k0.

(** A spawned thread that has ended has returned from its entry function. *)
Definition ended_means_returned (w : World) : Prop :=
  forall pt pc k, w_child w = Some (pt, pc) -> threads (w_sys w) !! pt = Some k ->
                  k_done k = true -> exists u, pc = Ret u.

(** A thread that was joined with success has ended. *)
Definition joined_means_ended (s : Sys) : Prop :=
  forall t p, In (t, EvJoin p 0) (log s) ->
              exists k, threads s !! p = Some k /\ k_done k = true.

(** The creating thread runs the constructor and then [join()]; the spawned
    thread gets thirty steps in between. *)
Definition join_sched : list who :=
  [Creator; Creator] ++ repeat Spawned 30 ++ repeat Creator 10.

(** ** The work, as the spawned thread does it *)

(** The events of thread [pt] in a log, in order. *)
Fixpoint events_of (pt : Z) (l : list (Z * event)) : list event :=
  match l with
  | [] => []
  | (t, e) :: l' => if t =? pt then e :: events_of pt l' else events_of pt l'
  end.

(** The thread-local name after a thread has left the events [evs], when it
    was [cur] before. *)
Fixpoint current_name (cur : string) (evs : list event) : string :=
  match evs with
  | [] => cur
  | EvTlsName n :: evs' => current_name n evs'
  | _ :: evs' => current_name cur evs'
  end.

(** Effects whose result depends on nothing but the calling thread's own
    kernel id [tid], its [t_thread] (which is [this]) and its
    [t_thread_name] (which is [cur]): the result, the events the thread
    leaves, and its [t_thread_name] afterwards. *)
Definition own_effect {X : Type} (tid : Z) (this : nat) (cur : string) (e : eff X)
  : option (X * list event * string) :=
  match e in eff X return option (X * list event * string) with
  | TlsGetThread => Some (Some this, [], cur)
  | TlsGetName => Some (cur, [], cur)
  | TlsSetName n => Some (tt, [EvTlsName n], n)
  | StoreName th _ => if Nat.eqb th this then Some (tt, [], cur) else None
  | SysGettid => Some (tid, [], cur)
  | Emit ev => if user_event ev then Some (tt, [ev], cur) else None
  | _ => None
  end.

(** The events a thread still has to leave until its program [p] returns,
    when [p] has such effects only. *)
Fixpoint remaining (tid : Z) (this : nat) (cur : string) (p : Prog unit)
  : option (list event) :=
  match p with
  | Ret _ => Some []
  | Throw _ => None
  | Vis e k =>
      match own_effect tid this cur e with
      | Some (x, evs, c) =>
          match remaining tid this c (k x) with
          | Some tr => Some (evs ++ tr)
          | None => None
          end
      | None => None
      end
  end.

(** The spawned thread after its signal: about to call the work, with the
    name given at construction in [t_thread_name]; or in the work, of whose
    events it has left [done] and still has to leave [todo], with the name
    the work has set last in [t_thread_name]. *)
Definition at_work (this : nat) (cb : std_function) (name : string) (w : World) : Prop :=
  forall pt pc k,
    w_child w = Some (pt, pc) -> threads (w_sys w) !! pt = Some k ->
    In (pt, EvSignal this) (log (w_sys w)) ->
    (events_of pt (log (w_sys w)) = init_events this cb name pt (k_tid k) /\
     pc = child_pc this (init_answers cb name pt (k_tid k)) /\
     t_thread_name k = name) \/
    (exists wk done todo,
       cb = Some wk /\
       events_of pt (log (w_sys w))
       = init_events this cb name pt (k_tid k) ++ EvInvoke wk :: done /\
       remaining (k_tid k) this (t_thread_name k) pc = Some todo /\
       done ++ todo = map snd (work_trace pt (k_tid k) name wk) /\
       t_thread_name k = current_name name done).

(** * Properties *)

(** ** Running programs *)

Lemma exec_bind {A B : Type} P t (p : Prog A) (f : A -> Prog B) s :
  exec P t (bind p f) s =
  match exec P t p s with
  | Returned a s' => exec P t (f a) s'
  | Raised e s' => Raised e s'
  | Blocks s' => Blocks s'
  | Faults s' => Faults s'
  end.
Proof.
  revert s. induction p as [a|e|X e k IH]; intros s; simpl; try reflexivity.
  destruct (handle P t e s); auto.
Qed.

Lemma on_object_at {X : Type} this s h (f : Thread -> result X) :
  heap s !! this = Some h -> on_object this s f = f h.
Proof. intros H. unfold on_object. now rewrite H. Qed.

Lemma on_self_at {X : Type} t s k (f : kthread -> result X) :
  threads s !! t = Some k -> on_self t s f = f k.
Proof. intros H. unfold on_self. now rewrite H. Qed.

Lemma c_str_length s : (String.length (c_str s) <= String.length s)%nat.
Proof.
  induction s as [|c s IH]; simpl; [lia|].
  destruct (Ascii.eqb c Ascii.zero); simpl; lia.
Qed.

Lemma substr0_length n s : (String.length (substr0 n s) <= n)%nat.
Proof.
  unfold substr0. revert s. induction n as [|n IH]; intros [|c s]; simpl; try lia.
  specialize (IH s). lia.
Qed.

Lemma substr0_short n s : (String.length s <= n)%nat -> substr0 n s = s.
Proof.
  unfold substr0. revert s. induction n as [|n IH]; intros [|c s]; simpl; try lia; auto.
  intros H. f_equal. apply IH. lia.
Qed.

Lemma os_name_fits n : (String.length (c_str (substr0 15 n)) <=? 15)%nat = true.
Proof.
  apply Nat.leb_le. pose proof (c_str_length (substr0 15 n)).
  pose proof (substr0_length 15 n). lia.
Qed.

(** ** join and the destructor *)

Lemma join_unattached P t this s h :
  heap s !! this = Some h -> m_thread h = 0 ->
  exec P t (join this) s = Returned tt s.
Proof.
  intros Hh H0. unfold join. simpl. rewrite (on_object_at _ _ _ _ Hh). simpl.
  now rewrite H0.
Qed.

Lemma join_failure P t this s h :
  heap s !! this = Some h -> m_thread h <> 0 -> a_rt (P s) <> 0 ->
  exec P t (join this) s =
  Raised (logic_error "pthread_join error")
    (put_cerr [CStr "pthread_join failed, rt = "; CInt (a_rt (P s));
               CStr ", name = "; CStr (m_name h); CEndl]
       (record t (EvJoin (m_thread h) (a_rt (P s))) s)).
Proof.
  intros Hh Hpt Hrt. unfold join. simpl. rewrite (on_object_at _ _ _ _ Hh). simpl.
  destruct (Z.eqb_spec (m_thread h) 0) as [|_]; [contradiction|]. simpl.
  rewrite (on_object_at _ _ _ _ Hh). simpl.
  destruct (Z.eqb_spec (a_rt (P s)) 0) as [|_]; [contradiction|]. simpl.
  destruct (Z.eqb_spec (a_rt (P s)) 0) as [|_]; [contradiction|]. simpl.
  unfold on_object. simpl. rewrite Hh. reflexivity.
Qed.

Lemma join_success P t this s h k :
  heap s !! this = Some h -> m_thread h <> 0 -> a_rt (P s) = 0 ->
  threads s !! m_thread h = Some k -> k_disp k = Joinable -> k_done k = true ->
  m_thread h <> t ->
  exec P t (join this) s =
  Returned tt
    (set_heap <[this := with_thread 0 h]>
       (record t (EvJoin (m_thread h) 0)
          (set_threads <[m_thread h := with_k_disp Joined k]> s))).
Proof.
  intros Hh Hpt Hrt Hk Hd Hdone Hne. unfold join. simpl.
  rewrite (on_object_at _ _ _ _ Hh). simpl.
  destruct (Z.eqb_spec (m_thread h) 0) as [|_]; [contradiction|]. simpl.
  rewrite (on_object_at _ _ _ _ Hh). simpl.
  rewrite Hrt. simpl. rewrite Hk, Hd, Hdone.
  destruct (Z.eqb_spec (m_thread h) t) as [|_]; [contradiction|]. simpl.
  unfold update_object, on_object. simpl. rewrite Hh. reflexivity.
Qed.

Lemma dtor_unattached P t this s h :
  heap s !! this = Some h -> m_thread h = 0 ->
  exec P t (Thread_dtor this) s = Returned tt s.
Proof.
  intros Hh H0. unfold Thread_dtor. simpl. rewrite (on_object_at _ _ _ _ Hh). simpl.
  now rewrite H0.
Qed.

Lemma dtor_attached P t this s h :
  heap s !! this = Some h -> m_thread h <> 0 ->
  exists rt s1,
    handle P t (PthreadDetach (m_thread h)) s = Ok rt s1 /\
    heap s1 = heap s /\ cerr s1 = cerr s /\
    log s1 = log s ++ [(t, EvDetach (m_thread h) rt)] /\
    exec P t (Thread_dtor this) s = Returned tt (set_heap <[this := with_thread 0 h]> s1).
Proof.
  intros Hh Hpt. unfold Thread_dtor. simpl. rewrite (on_object_at _ _ _ _ Hh). simpl.
  destruct (Z.eqb_spec (m_thread h) 0) as [|_]; [contradiction|]. simpl.
  rewrite (on_object_at _ _ _ _ Hh). simpl.
  destruct (threads s !! m_thread h) as [k|] eqn:Hk.
  - destruct (k_disp k); eexists _, _; (split; [reflexivity|]);
      unfold update_object, on_object; simpl; rewrite Hh; auto.
  - eexists _, _; (split; [reflexivity|]);
      unfold update_object, on_object; simpl; rewrite Hh; auto.
Qed.

(** A [join()] that returned leaves nothing attached: joining again changes
    nothing, whatever the platform would answer. *)
Lemma join_again P P' t t' this s s1 :
  exec P t (join this) s = Returned tt s1 ->
  exec P' t' (join this) s1 = Returned tt s1.
Proof.
  intros H. destruct (heap s !! this) as [h|] eqn:Hh.
  - destruct (Z.eq_dec (m_thread h) 0) as [H0|H0].
    + rewrite (join_unattached P t this s h Hh H0) in H. injection H as <-.
      exact (join_unattached P' t' this s h Hh H0).
    + destruct (Z.eq_dec (a_rt (P s)) 0) as [Hrt|Hrt].
      * revert H. unfold join. simpl. rewrite (on_object_at _ _ _ _ Hh). simpl.
        destruct (Z.eqb_spec (m_thread h) 0) as [|_]; [contradiction|]. simpl.
        rewrite (on_object_at _ _ _ _ Hh). simpl. rewrite Hrt. simpl.
        destruct (threads s !! m_thread h) as [k|]; [|discriminate].
        destruct (k_disp k); try discriminate.
        destruct (m_thread h =? t); [discriminate|].
        destruct (k_done k); [|discriminate]. simpl.
        unfold update_object, on_object. simpl. rewrite Hh. intros [= <-].
        apply (join_unattached P' t' this _ (with_thread 0 h)); [|reflexivity].
        simpl. apply lookup_insert_eq.
      * rewrite (join_failure P t this s h Hh H0 Hrt) in H. discriminate.
  - revert H. unfold join. simpl. unfold on_object. rewrite Hh. discriminate.
Qed.

(** C5: [join()] on a handle whose [m_thread] is 0 (nothing attached, as
    after a [join()] that succeeded) returns normally, calls nothing and
    changes nothing. *)
Theorem C5_join_without_thread_is_noop P t this s h :
  heap s !! this = Some h -> m_thread h = 0 ->
  exec P t (join this) s = Returned tt s.
Proof. apply join_unattached. Qed.

(** A second [join()] after one that succeeded, on a platform that would
    answer with an error. *)
Lemma C5_witness :
  exists s1,
    exec (always 0 0 0) 1 (join 5) sys_ended = Returned tt s1 /\
    exec (always EDEADLK 0 0) 1 (join 5) s1 = Returned tt s1.
Proof.
  eexists. split; [reflexivity|].
  apply (C5_join_without_thread_is_noop (always EDEADLK 0 0) 1 5%nat _
           (mkThread 101 0 None "worker-1" 0%nat)); reflexivity.
Defined.

(** C6 (amended): when [pthread_join] reports an error, [join()] ends with
    [std::logic_error("pthread_join error")]; the error code goes to
    [std::cerr] with the name and is not part of the exception.  [m_thread]
    and the thread are as before, so the join can be tried again. *)
Theorem C6_join_failure_keeps_thread P t this s h :
  heap s !! this = Some h -> m_thread h <> 0 -> a_rt (P s) <> 0 ->
  exists s',
    exec P t (join this) s = Raised (logic_error "pthread_join error") s' /\
    heap s' = heap s /\ threads s' = threads s /\
    log s' = log s ++ [(t, EvJoin (m_thread h) (a_rt (P s)))] /\
    cerr s' = cerr s ++ [CStr "pthread_join failed, rt = "; CInt (a_rt (P s));
                         CStr ", name = "; CStr (m_name h); CEndl].
Proof.
  intros Hh Hpt Hrt. rewrite (join_failure P t this s h Hh Hpt Hrt).
  eexists. split; [reflexivity|]. simpl. auto.
Qed.

(** [pthread_join] fails with [EDEADLK] on a running thread. *)
Lemma C6_witness :
  exists s',
    exec (always EDEADLK 0 0) 1 (join 5) sys_running
    = Raised (logic_error "pthread_join error") s' /\
    heap s' = heap sys_running /\ threads s' = threads sys_running /\
    log s' = log sys_running ++ [(1, EvJoin 7 EDEADLK)] /\
    cerr s' = cerr sys_running ++ [CStr "pthread_join failed, rt = "; CInt EDEADLK;
                                   CStr ", name = "; CStr "worker-1"; CEndl].
Proof.
  apply (C6_join_failure_keeps_thread (always EDEADLK 0 0) 1 5%nat sys_running
           (mkThread 101 7 None "worker-1" 0%nat)); [reflexivity|discriminate|discriminate].
Defined.

(** C6, counterexample: the exception of a failed join is the same for the
    error codes 35 and 22, so no function reads the code from it. *)
Lemma C6_exception_without_code :
  ~ exists code_of : exn -> Z,
      forall rt, rt <> 0 ->
        forall e s', exec (always rt 0 0) 1 (join 5) sys_ended = Raised e s' ->
                     code_of e = rt.
Proof.
  intros [code_of H].
  pose proof (H EDEADLK ltac:(discriminate) _ _ eq_refl) as H35.
  pose proof (H EINVAL ltac:(discriminate) _ _ eq_refl) as H22.
  rewrite H35 in H22. discriminate.
Qed.

(** C7: the destructor of a handle whose [m_thread] is set calls
    [pthread_detach] on it and clears the field, without waiting whether or
    not the thread has ended; when [m_thread] is 0 it calls nothing and
    changes nothing. *)
Theorem C7_destructor_detaches P t this s h :
  heap s !! this = Some h ->
  (m_thread h <> 0 ->
   exists rt s',
     exec P t (Thread_dtor this) s = Returned tt s' /\
     log s' = log s ++ [(t, EvDetach (m_thread h) rt)] /\
     heap s' = <[this := with_thread 0 h]> (heap s) /\
     (forall k, threads s !! m_thread h = Some k -> k_disp k = Joinable ->
                rt = 0 /\ threads s' = <[m_thread h := with_k_disp Detached k]> (threads s))) /\
  (m_thread h = 0 -> exec P t (Thread_dtor this) s = Returned tt s).
Proof.
  intros Hh. split; [|apply (dtor_unattached P t this s h Hh)].
  intros Hpt. destruct (dtor_attached P t this s h Hh Hpt)
    as (rt & s1 & Hd & Hheap & _ & Hlog & He).
  exists rt, (set_heap <[this := with_thread 0 h]> s1).
  split; [exact He|]. split; [exact Hlog|]. split; [simpl; now rewrite Hheap|].
  intros k Hk Hj. simpl in Hd. rewrite Hk, Hj in Hd. injection Hd as <- <-. auto.
Qed.

(** The destructor while the thread is still running. *)
Lemma C7_witness :
  (exists rt s',
     exec (always 0 0 0) 1 (Thread_dtor 5) sys_running = Returned tt s' /\
     log s' = log sys_running ++ [(1, EvDetach 7 rt)] /\
     heap s' = <[5%nat := mkThread 101 0 None "worker-1" 0%nat]> (heap sys_running) /\
     (forall k, threads sys_running !! 7 = Some k -> k_disp k = Joinable ->
                rt = 0 /\ threads s' = <[7 := with_k_disp Detached k]> (threads sys_running))).
Proof.
  apply (C7_destructor_detaches (always 0 0 0) 1 5%nat sys_running
           (mkThread 101 7 None "worker-1" 0%nat)); [reflexivity|discriminate].
Defined.

(** ** The life of a handle *)

Lemma calls_on_app pt l l' : calls_on pt (l ++ l') = calls_on pt l ++ calls_on pt l'.
Proof.
  induction l as [|[a e] l IH]; simpl; [reflexivity|].
  destruct e; try exact IH; destruct (target =? pt); simpl; now rewrite IH.
Qed.

Lemma all_failed_released rts : all_failed rts = true -> released_once rts = true.
Proof.
  induction rts as [|rt rts IH]; simpl; [reflexivity|].
  destruct (rt =? 0); simpl; [discriminate|exact IH].
Qed.

Lemma all_failed_then_one rts rt :
  all_failed rts = true -> released_once (rts ++ [rt]) = true.
Proof.
  induction rts as [|r rts IH]; simpl.
  - destruct (rt =? 0); reflexivity.
  - destruct (r =? 0); simpl; [discriminate|exact IH].
Qed.

Lemma all_failed_snoc rts rt :
  all_failed rts = true -> rt <> 0 -> all_failed (rts ++ [rt]) = true.
Proof.
  intros H Hrt. unfold all_failed in *. rewrite forallb_app, H. simpl.
  destruct (Z.eqb_spec rt 0); [contradiction|reflexivity].
Qed.

Lemma life_step_inv P t this pt ev s s' :
  pt <> 0 -> life_inv this pt s -> life_step P t this pt ev s = Some s' ->
  life_inv this pt s'.
Proof.
  intros Hpt (h & k & Hh & Hk & Hcase) Hstep.
  destruct Hcase as [(Hm & Hd & Hc) | (Hm & Hd & Hc)].
  - (* still attached *)
    destruct ev; cbn [life_step] in Hstep.
    + (* join *)
      destruct (Z.eq_dec (a_rt (P s)) 0) as [Hrt|Hrt].
      * destruct (k_done k) eqn:Hdone; destruct (Z.eq_dec pt t) as [Heq|Hne].
        all: revert Hstep; unfold join; simpl; rewrite (on_object_at _ _ _ _ Hh); simpl.
        all: rewrite Hm; destruct (Z.eqb_spec pt 0) as [|_]; [contradiction|]; simpl.
        all: rewrite (on_object_at _ _ _ _ Hh); simpl; rewrite Hm, Hrt; simpl.
        all: rewrite Hk, Hd, ?Hdone.
        all: destruct (Z.eqb_spec pt t) as [|]; try contradiction; try discriminate.
        simpl. unfold update_object, on_object. simpl. rewrite Hh.
        intros [= <-]. exists (with_thread 0 h), (with_k_disp Joined k). simpl.
        rewrite !lookup_insert_eq. split; [reflexivity|]. split; [reflexivity|].
        right. split; [reflexivity|]. split; [discriminate|].
        rewrite calls_on_app. simpl. rewrite Z.eqb_refl. now apply all_failed_then_one.
      * rewrite (join_failure P t this s h Hh) in Hstep;
          [|rewrite Hm; exact Hpt|exact Hrt].
        injection Hstep as <-. exists h, k. simpl. split; [exact Hh|]. split; [exact Hk|].
        left. split; [exact Hm|]. split; [exact Hd|].
        rewrite calls_on_app. simpl. rewrite Hm, Z.eqb_refl. now apply all_failed_snoc.
    + (* destruction *)
      revert Hstep. unfold Thread_dtor. simpl. rewrite (on_object_at _ _ _ _ Hh). simpl.
      rewrite Hm. destruct (Z.eqb_spec pt 0) as [|_]; [contradiction|]. simpl.
      rewrite (on_object_at _ _ _ _ Hh). simpl. rewrite Hm, Hk, Hd. simpl.
      unfold update_object, on_object. simpl. rewrite Hh.
      intros [= <-]. exists (with_thread 0 h), (with_k_disp Detached k). simpl.
      rewrite !lookup_insert_eq. split; [reflexivity|]. split; [reflexivity|].
      right. split; [reflexivity|]. split; [discriminate|].
      rewrite calls_on_app. simpl. rewrite Z.eqb_refl. now apply all_failed_then_one.
    + (* the thread ends *)
      unfold finish in Hstep. rewrite Hk in Hstep.
      destruct (k_done k); injection Hstep as <-.
      * exists h, k. auto 10.
      * exists h, (with_k_done true k). simpl. rewrite lookup_insert_eq. auto 10.
  - (* released *)
    destruct ev; cbn [life_step] in Hstep.
    + rewrite (join_unattached P t this s h Hh Hm) in Hstep. injection Hstep as <-.
      exists h, k. auto 10.
    + rewrite (dtor_unattached P t this s h Hh Hm) in Hstep. injection Hstep as <-.
      exists h, k. auto 10.
    + unfold finish in Hstep. rewrite Hk in Hstep.
      destruct (k_done k); injection Hstep as <-.
      * exists h, k. auto 10.
      * exists h, (with_k_done true k). simpl. rewrite lookup_insert_eq. auto 10.
Qed.

Lemma run_life_inv P t this pt evs : forall s s',
  pt <> 0 -> life_inv this pt s -> run_life P t this pt evs s = Some s' ->
  life_inv this pt s'.
Proof.
  induction evs as [|ev evs IH]; intros s s' Hpt Hinv Hrun; simpl in Hrun.
  - now injection Hrun as <-.
  - destruct (life_step P t this pt ev s) as [s1|] eqn:Hs; [|discriminate].
    apply (IH s1 s' Hpt); [|exact Hrun].
    exact (life_step_inv P t this pt ev s s1 Hpt Hinv Hs).
Qed.

(** C10 (amended): over any sequence of [join()] calls, destruction and the
    end of the thread, [m_thread] is set exactly while the thread is still
    joinable, and no call of [pthread_join] or [pthread_detach] on the handle
    follows one that succeeded; a [pthread_join] that fails leaves the field
    set and the handle is passed again by the next call. *)
Theorem C10_released_once P t this pt evs s s' h k :
  heap s !! this = Some h -> m_thread h = pt -> pt <> 0 ->
  threads s !! pt = Some k -> k_disp k = Joinable ->
  calls_on pt (log s) = [] ->
  run_life P t this pt evs s = Some s' ->
  exists h' k',
    heap s' !! this = Some h' /\ threads s' !! pt = Some k' /\
    (m_thread h' <> 0 <-> k_disp k' = Joinable) /\
    (m_thread h' = pt \/ m_thread h' = 0) /\
    released_once (calls_on pt (log s')) = true.
Proof.
  intros Hh Hm Hpt Hk Hd Hc Hrun.
  destruct (run_life_inv P t this pt evs s s' Hpt) as (h' & k' & Hh' & Hk' & Hcase); auto.
  - exists h, k. split; [exact Hh|]. split; [exact Hk|]. left. now rewrite Hc.
  - exists h', k'. split; [exact Hh'|]. split; [exact Hk'|].
    destruct Hcase as [(Hm' & Hd' & Hc') | (Hm' & Hd' & Hc')].
    + split; [split; intros; [exact Hd'|congruence]|].
      split; [now left|now apply all_failed_released].
    + split; [split; intros; [congruence|contradiction]|]. split; [now right|exact Hc'].
Qed.

(** A failed [join()], the end of the thread, two more [join()] and the
    destructor. *)
Lemma C10_witness :
  exists s' h' k',
    run_life join_fails_once 1 5 7 [DoJoin; ThreadEnds; DoJoin; DoJoin; DoDestroy] sys_running
    = Some s' /\
    heap s' !! 5%nat = Some h' /\ threads s' !! 7 = Some k' /\
    (m_thread h' <> 0 <-> k_disp k' = Joinable) /\
    (m_thread h' = 7 \/ m_thread h' = 0) /\
    released_once (calls_on 7 (log s')) = true.
Proof.
  eexists.
  assert (H : run_life join_fails_once 1 5 7
                [DoJoin; ThreadEnds; DoJoin; DoJoin; DoDestroy] sys_running = Some _)
    by reflexivity.
  destruct (C10_released_once join_fails_once 1 5%nat 7
             [DoJoin; ThreadEnds; DoJoin; DoJoin; DoDestroy] sys_running _
             (mkThread 101 7 None "worker-1" 0%nat)
             (mkKthread 101 "worker-1" false Joinable (Some 5%nat) "worker-1")
             eq_refl eq_refl ltac:(discriminate) eq_refl eq_refl eq_refl H)
    as (h' & k' & R).
  exists h', k'. split; [exact H|exact R].
Defined.

(** C10, counterexample: after a [join()] whose [pthread_join] fails, the
    destructor passes the same handle to [pthread_detach], so the handle is
    not passed at most once. *)
Lemma C10_handle_passed_twice :
  ~ forall P t this pt evs s s' h k,
      heap s !! this = Some h -> m_thread h = pt -> pt <> 0 ->
      threads s !! pt = Some k -> k_disp k = Joinable ->
      calls_on pt (log s) = [] ->
      run_life P t this pt evs s = Some s' ->
      (length (calls_on pt (log s')) <= 1)%nat.
Proof.
  intros H.
  specialize (H join_fails_once 1 5%nat 7 [DoJoin; DoDestroy] sys_running).
  specialize (H _ _ _ eq_refl eq_refl ltac:(discriminate) eq_refl eq_refl eq_refl eq_refl).
  vm_compute in H. lia.
Qed.

(** ** SetName and GetName *)

Lemma SetName_owned P t s k th h n :
  threads s !! t = Some k -> t_thread k = Some th -> heap s !! th = Some h ->
  exec P t (SetName n) s =
  Returned tt (record t (EvTlsName n)
                 (set_threads <[t := with_t_thread_name n k]>
                    (set_heap <[th := with_name n h]> s))).
Proof.
  intros Hk Hth Hh. unfold SetName. simpl.
  rewrite (on_self_at _ _ _ _ Hk), Hth. simpl.
  unfold update_object. rewrite (on_object_at _ _ _ _ Hh). simpl.
  unfold on_self. simpl. rewrite Hk. reflexivity.
Qed.

Lemma SetName_unowned P t s k n :
  threads s !! t = Some k -> t_thread k = None ->
  exec P t (SetName n) s =
  Returned tt (record t (EvTlsName n) (set_threads <[t := with_t_thread_name n k]> s)).
Proof.
  intros Hk Hth. unfold SetName. simpl.
  rewrite (on_self_at _ _ _ _ Hk), Hth. simpl.
  rewrite (on_self_at _ _ _ _ Hk). reflexivity.
Qed.

Lemma GetName_reads P t s k :
  threads s !! t = Some k -> exec P t GetName s = Returned (t_thread_name k) s.
Proof. intros Hk. unfold GetName. simpl. now rewrite (on_self_at _ _ _ _ Hk). Qed.

(** C8: [SetName(n)] sets [t_thread_name] of the calling thread to [n] and,
    when [t_thread] points to a handle, the [m_name] of that handle too;
    [GetName()] on that thread then returns [n]. *)
Theorem C8_SetName_then_GetName P t s k n :
  threads s !! t = Some k ->
  (forall th, t_thread k = Some th -> is_Some (heap s !! th)) ->
  exists s',
    exec P t (SetName n) s = Returned tt s' /\
    exec P t GetName s' = Returned n s' /\
    threads s' !! t = Some (with_t_thread_name n k) /\
    (forall th h, t_thread k = Some th -> heap s !! th = Some h ->
                  heap s' !! th = Some (with_name n h)) /\
    (t_thread k = None -> heap s' = heap s).
Proof.
  intros Hk Hlive. destruct (t_thread k) as [th|] eqn:Hth.
  - destruct (Hlive th eq_refl) as [h Hh].
    eexists. split; [apply (SetName_owned P t s k th h n Hk Hth Hh)|].
    assert (Hk' : threads (record t (EvTlsName n)
                 (set_threads <[t := with_t_thread_name n k]>
                    (set_heap <[th := with_name n h]> s))) !! t
                  = Some (with_t_thread_name n k)) by (simpl; apply lookup_insert_eq).
    split; [rewrite (GetName_reads _ _ _ _ Hk'); reflexivity|].
    split; [exact Hk'|]. split; [|discriminate].
    intros th' h' [= <-] Hh'. simpl. rewrite Hh in Hh'. injection Hh' as <-.
    apply lookup_insert_eq.
  - eexists. split; [apply (SetName_unowned P t s k n Hk Hth)|].
    assert (Hk' : threads (record t (EvTlsName n)
                 (set_threads <[t := with_t_thread_name n k]> s)) !! t
                  = Some (with_t_thread_name n k)) by (simpl; apply lookup_insert_eq).
    split; [rewrite (GetName_reads _ _ _ _ Hk'); reflexivity|].
    split; [exact Hk'|]. split; [discriminate|reflexivity].
Qed.

(** Thread 7 renames itself. *)
Lemma C8_witness :
  exists s',
    exec (always 0 0 0) 7 (SetName "renamed") sys_running = Returned tt s' /\
    exec (always 0 0 0) 7 GetName s' = Returned "renamed" s' /\
    threads s' !! 7
    = Some (mkKthread 101 "worker-1" false Joinable (Some 5%nat) "renamed") /\
    (forall th h, Some 5%nat = Some th -> heap sys_running !! th = Some h ->
                  heap s' !! th = Some (with_name "renamed" h)) /\
    (Some 5%nat = None -> heap s' = heap sys_running).
Proof.
  apply (C8_SetName_then_GetName (always 0 0 0) 7 sys_running
           (mkKthread 101 "worker-1" false Joinable (Some 5%nat) "worker-1") "renamed").
  - reflexivity.
  - intros th [= <-]. eexists. reflexivity.
Defined.

(** ** The trampoline, run on its own *)

Lemma exec_body P pt this w : forall s h k,
  heap s !! this = Some h -> threads s !! pt = Some k -> t_thread k = Some this ->
  exists s' n1 n2 tail,
    exec P pt (body w) s = Returned tt s' /\
    heap s' !! this = Some (with_name n1 h) /\
    threads s' !! pt = Some (with_t_thread_name n2 k) /\
    log s' = log s ++ tail /\ Forall (by_work pt) tail /\
    (renames w = false -> n1 = m_name h /\ n2 = t_thread_name k).
Proof.
  induction w as [|o w IH]; intros s h k Hh Hk Hth.
  - exists s, (m_name h), (t_thread_name k), []. simpl.
    rewrite app_nil_r. destruct h, k. simpl. repeat split; auto.
  - simpl body. destruct o as [n| | |n].
    + rewrite exec_bind. simpl do_op. rewrite (SetName_owned P pt s k this h n Hk Hth Hh).
      edestruct (IH (record pt (EvTlsName n)
                 (set_threads <[pt := with_t_thread_name n k]>
                    (set_heap <[this := with_name n h]> s)))
                    (with_name n h) (with_t_thread_name n k))
        as (s' & n1 & n2 & tail & He & Hh' & Hk' & Hl & Ht & _);
        [simpl; apply lookup_insert_eq | simpl; apply lookup_insert_eq | exact Hth |].
      exists s', n1, n2, ((pt, EvTlsName n) :: tail). rewrite He.
      repeat split; auto.
      * rewrite Hl. simpl. now rewrite <- app_assoc.
      * constructor; [split; reflexivity | exact Ht].
      * simpl in H. discriminate.
      * simpl in H. discriminate.
    + rewrite exec_bind. simpl. rewrite (on_self_at _ _ _ _ Hk). simpl.
      edestruct (IH (record pt (EvSawName (t_thread_name k)) s) h k)
        as (s' & n1 & n2 & tail & He & Hh' & Hk' & Hl & Ht & Hn); [exact Hh|exact Hk|exact Hth|].
      exists s', n1, n2, ((pt, EvSawName (t_thread_name k)) :: tail). rewrite He.
      repeat split; auto; try (apply Hn; assumption).
      * rewrite Hl. simpl. now rewrite <- app_assoc.
      * constructor; [split; reflexivity | exact Ht].
    + rewrite exec_bind. simpl. rewrite (on_self_at _ _ _ _ Hk). simpl.
      edestruct (IH (record pt (EvSawId (k_tid k)) s) h k)
        as (s' & n1 & n2 & tail & He & Hh' & Hk' & Hl & Ht & Hn); [exact Hh|exact Hk|exact Hth|].
      exists s', n1, n2, ((pt, EvSawId (k_tid k)) :: tail). rewrite He.
      repeat split; auto; try (apply Hn; assumption).
      * rewrite Hl. simpl. now rewrite <- app_assoc.
      * constructor; [split; reflexivity | exact Ht].
    + rewrite exec_bind. simpl.
      edestruct (IH (record pt (EvUser n) s) h k)
        as (s' & n1 & n2 & tail & He & Hh' & Hk' & Hl & Ht & Hn); [exact Hh|exact Hk|exact Hth|].
      exists s', n1, n2, ((pt, EvUser n) :: tail). rewrite He.
      repeat split; auto; try (apply Hn; assumption).
      * rewrite Hl. simpl. now rewrite <- app_assoc.
      * constructor; [split; reflexivity | exact Ht].
Qed.

Lemma exec_run P pt this s h k w :
  heap s !! this = Some h -> m_cb h = Some w -> threads s !! pt = Some k ->
  exists s' n1 n2 tail,
    exec P pt (run this) s = Returned tt s' /\
    heap s' !! this
      = Some (mkThread (k_tid k) (m_thread h) None n1 (S (m_semaphore h))) /\
    threads s' !! pt
      = Some (mkKthread (k_tid k) (c_str (substr0 15 (m_name h))) (k_done k) (k_disp k)
                        (Some this) n2) /\
    log s' = log s ++ [(pt, EvTlsThread (Some this));
                       (pt, EvTlsName (m_name h));
                       (pt, EvStoreId this (k_tid k));
                       (pt, EvOsName pt (c_str (substr0 15 (m_name h))) 0);
                       (pt, EvTakeCb this (Some w));
                       (pt, EvSignal this);
                       (pt, EvInvoke w)] ++ tail /\
    Forall (by_work pt) tail /\
    (renames w = false -> n1 = m_name h /\ n2 = m_name h).
Proof.
  intros Hh Hcb Hk. unfold run, GetThreadId.
  simpl. unfold on_object, on_self.
  repeat (progress (simpl; rewrite ?Hh, ?Hk, ?lookup_insert_eq, ?os_name_fits)).
  rewrite Hcb. rewrite exec_bind. simpl.
  match goal with |- context [exec P pt (body w) ?s0] =>
    edestruct (exec_body P pt this w s0) as (s' & n1 & n2 & tail & He & Hh' & Hk' & Hl & Ht & Hn);
      [simpl; apply lookup_insert_eq | simpl; apply lookup_insert_eq | reflexivity |]
  end.
  exists s', n1, n2, tail. rewrite He. split; [reflexivity|].
  split; [exact Hh'|]. split; [exact Hk'|]. split; [|split; [exact Ht|exact Hn]].
  rewrite Hl. simpl. rewrite <- !app_assoc. reflexivity.
Qed.

Lemma sys_eq a b :
  heap a = heap b -> threads a = threads b -> cerr a = cerr b -> log a = log b -> a = b.
Proof. destruct a, b. simpl. now intros -> -> -> ->. Qed.

Lemma run_until_call_gen P pt this s h k s1 call :
  heap s !! this = Some h -> threads s !! pt = Some k ->
  s1 = at_call pt this h k s -> call = (invoke (m_cb h) ;; Ret tt) ->
  exec P pt (run this) s = exec P pt call s1.
Proof.
  intros Hh Hk Hs1 Hcall. unfold run, GetThreadId.
  simpl. unfold on_object, on_self.
  repeat (progress (simpl; rewrite ?Hh, ?Hk, ?lookup_insert_eq, ?os_name_fits)).
  rewrite <- Hcall. f_equal. subst s1. apply sys_eq; simpl.
  - rewrite !insert_insert_eq. reflexivity.
  - rewrite !insert_insert_eq. reflexivity.
  - reflexivity.
  - rewrite <- !app_assoc. reflexivity.
Qed.

Lemma run_until_call P pt this s h k :
  heap s !! this = Some h -> threads s !! pt = Some k ->
  exec P pt (run this) s = exec P pt (invoke (m_cb h) ;; Ret tt) (at_call pt this h k s).
Proof. intros Hh Hk. now apply (run_until_call_gen P pt this s h k). Qed.

Lemma sys_eta s : mkSys (heap s) (threads s) (cerr s) (log s) = s.
Proof. now destruct s. Qed.

Lemma exec_body_exact P pt this w : forall s h k,
  heap s !! this = Some h -> threads s !! pt = Some k -> t_thread k = Some this ->
  exec P pt (body w) s
  = Returned tt
      (mkSys (<[this := with_name (final_name (m_name h) w) h]> (heap s))
             (<[pt := with_t_thread_name (final_name (t_thread_name k) w) k]> (threads s))
             (cerr s)
             (log s ++ work_trace pt (k_tid k) (t_thread_name k) w)).
Proof.
  induction w as [|o w IH]; intros s h k Hh Hk Hth.
  - simpl. f_equal. rewrite app_nil_r.
    rewrite (insert_id (heap s) this); [|rewrite Hh; now destruct h].
    rewrite (insert_id (threads s) pt); [|rewrite Hk; now destruct k].
    symmetry. apply sys_eta.
  - cbn [body]. rewrite exec_bind. destruct o as [n| | |n]; cbn [do_op].
    + rewrite (SetName_owned P pt s k this h n Hk Hth Hh).
      rewrite (IH _ (with_name n h) (with_t_thread_name n k));
        [|simpl; apply lookup_insert_eq|simpl; apply lookup_insert_eq|exact Hth].
      simpl. rewrite !insert_insert_eq, <- app_assoc. reflexivity.
    + simpl. rewrite (on_self_at _ _ _ _ Hk). simpl.
      rewrite (IH _ h k); [|exact Hh|exact Hk|exact Hth].
      simpl. rewrite <- app_assoc. reflexivity.
    + simpl. rewrite (on_self_at _ _ _ _ Hk). simpl.
      rewrite (IH _ h k); [|exact Hh|exact Hk|exact Hth].
      simpl. rewrite <- app_assoc. reflexivity.
    + simpl. rewrite (IH _ h k); [|exact Hh|exact Hk|exact Hth].
      simpl. rewrite <- app_assoc. reflexivity.
Qed.

(** C3: the trampoline sets [t_thread], sets [t_thread_name] from the stored
    name, stores the kernel id in [m_id], sets the OS-level name, takes the
    callable out of the handle (which is left empty), signals the semaphore
    and only then invokes the callable, in this order: the callable is
    called in the state in which all of this has been done, and the
    trampoline returns with the handle and the thread as the work left them,
    and with its seven entries and then those of the work in the log. *)
Theorem C3_trampoline_order P pt this s h k w :
  heap s !! this = Some h -> m_cb h = Some w -> threads s !! pt = Some k ->
  exec P pt (run this) s
  = exec P pt (invoke (Some w) ;; Ret tt)
      (mkSys (<[this := mkThread (k_tid k) (m_thread h) None (m_name h) (S (m_semaphore h))]>
                (heap s))
             (<[pt := mkKthread (k_tid k) (c_str (substr0 15 (m_name h))) (k_done k)
                                (k_disp k) (Some this) (m_name h)]> (threads s))
             (cerr s)
             (log s ++ [(pt, EvTlsThread (Some this));
                        (pt, EvTlsName (m_name h));
                        (pt, EvStoreId this (k_tid k));
                        (pt, EvOsName pt (c_str (substr0 15 (m_name h))) 0);
                        (pt, EvTakeCb this (Some w));
                        (pt, EvSignal this)])) /\
  exists s',
    exec P pt (run this) s = Returned tt s' /\
    heap s' = <[this := mkThread (k_tid k) (m_thread h) None (final_name (m_name h) w)
                                 (S (m_semaphore h))]> (heap s) /\
    threads s' = <[pt := mkKthread (k_tid k) (c_str (substr0 15 (m_name h))) (k_done k)
                                   (k_disp k) (Some this) (final_name (m_name h) w)]>
                   (threads s) /\
    cerr s' = cerr s /\
    log s' = log s ++ [(pt, EvTlsThread (Some this));
                       (pt, EvTlsName (m_name h));
                       (pt, EvStoreId this (k_tid k));
                       (pt, EvOsName pt (c_str (substr0 15 (m_name h))) 0);
                       (pt, EvTakeCb this (Some w));
                       (pt, EvSignal this);
                       (pt, EvInvoke w)]
               ++ work_trace pt (k_tid k) (m_name h) w.
Proof.
  intros Hh Hcb Hk. rewrite (run_until_call P pt this s h k Hh Hk), Hcb.
  split; [unfold at_call; rewrite Hcb; reflexivity|].
  rewrite exec_bind. cbn [invoke]. rewrite exec_bind.
  change (exec P pt (perform (Emit (EvInvoke w))) (at_call pt this h k s))
    with (Returned tt (record pt (EvInvoke w) (at_call pt this h k s))).
  cbv beta iota.
  rewrite (exec_body_exact P pt this w _
             (mkThread (k_tid k) (m_thread h) None (m_name h) (S (m_semaphore h)))
             (mkKthread (k_tid k) (c_str (substr0 15 (m_name h))) (k_done k) (k_disp k)
                        (Some this) (m_name h)));
    [|simpl; apply lookup_insert_eq|simpl; apply lookup_insert_eq|reflexivity].
  cbn [exec]. eexists. split; [reflexivity|]. simpl.
  rewrite !insert_insert_eq, Hcb, <- !app_assoc. auto.
Qed.

(** The trampoline of thread 7 on the handle at address 5. *)
Lemma C3_witness :
  exec (always 0 0 0) 7 (run 5) (sys_spawned demo_work)
  = exec (always 0 0 0) 7 (invoke (Some demo_work) ;; Ret tt)
      (mkSys (<[5%nat := mkThread 101 7 None long_name 1%nat]> (heap (sys_spawned demo_work)))
             (<[7 := mkKthread 101 (c_str (substr0 15 long_name)) false Joinable
                               (Some 5%nat) long_name]> (threads (sys_spawned demo_work)))
             (cerr (sys_spawned demo_work))
             (log (sys_spawned demo_work)
              ++ [(7, EvTlsThread (Some 5%nat));
                  (7, EvTlsName long_name);
                  (7, EvStoreId 5 101);
                  (7, EvOsName 7 (c_str (substr0 15 long_name)) 0);
                  (7, EvTakeCb 5 (Some demo_work));
                  (7, EvSignal 5)])) /\
  exists s',
    exec (always 0 0 0) 7 (run 5) (sys_spawned demo_work) = Returned tt s' /\
    heap s' = <[5%nat := mkThread 101 7 None (final_name long_name demo_work) 1%nat]>
                (heap (sys_spawned demo_work)) /\
    threads s' = <[7 := mkKthread 101 (c_str (substr0 15 long_name)) false Joinable
                                  (Some 5%nat) (final_name long_name demo_work)]>
                   (threads (sys_spawned demo_work)) /\
    cerr s' = cerr (sys_spawned demo_work) /\
    log s' = log (sys_spawned demo_work)
             ++ [(7, EvTlsThread (Some 5%nat));
                 (7, EvTlsName long_name);
                 (7, EvStoreId 5 101);
                 (7, EvOsName 7 (c_str (substr0 15 long_name)) 0);
                 (7, EvTakeCb 5 (Some demo_work));
                 (7, EvSignal 5);
                 (7, EvInvoke demo_work)]
             ++ work_trace 7 101 long_name demo_work.
Proof.
  apply (C3_trampoline_order (always 0 0 0) 7 5%nat (sys_spawned demo_work)
           (mkThread default_m_id 7 (Some demo_work) long_name 0%nat)
           (new_kthread 101 main_thread) demo_work); reflexivity.
Defined.

(** ** Construction that fails *)

(** C4 (amended): when [pthread_create] fails the construction ends at once
    with [std::logic_error("pthread_create error")]; the error code goes to
    [std::cerr] with the name and is not part of the exception.  No thread
    was made, the semaphore was not waited on, nothing was invoked and no
    object is left at [this]. *)
Theorem C4_spawn_failure P t this cb name s k :
  heap s !! this = None -> threads s !! t = Some k ->
  let s1 := set_heap
              <[this := mkThread default_m_id default_m_thread cb name semaphore_initial]> s in
  a_rt (P s1) <> 0 ->
  exists s',
    exec P t (construct this cb name) s = Raised (logic_error "pthread_create error") s' /\
    heap s' = heap s /\ threads s' = threads s /\
    log s' = log s ++ [(t, EvCreate this (a_rt (P s1)) 0)] /\
    cerr s' = cerr s ++ [CStr "pthread_create thread fail, rt="; CInt (a_rt (P s1));
                         CStr " name="; CStr name].
Proof.
  intros Hfree Hk s1 Hrt. unfold construct, Thread_ctor. simpl. rewrite Hfree. fold s1.
  unfold on_object, on_self.
  assert (H1 : heap s1 !! this
               = Some (mkThread default_m_id default_m_thread cb name semaphore_initial))
    by (simpl; apply lookup_insert_eq).
  rewrite H1. change (threads s1) with (threads s). rewrite Hk. simpl.
  destruct (Z.eqb_spec (a_rt (P s1)) 0) as [|_]; [contradiction|]. simpl.
  destruct (Z.eqb_spec (a_rt (P s1)) 0) as [|_]; [contradiction|]. simpl.
  erewrite on_object_at by exact H1.
  eexists. split; [reflexivity|]. simpl.
  rewrite delete_insert_id by exact Hfree. auto.
Qed.

(** [pthread_create] fails with the error code 11. *)
Lemma C4_witness :
  exists s',
    exec (always 11 0 0) 1 (construct 5 (Some demo_work) long_name) sys_main
    = Raised (logic_error "pthread_create error") s' /\
    heap s' = heap sys_main /\ threads s' = threads sys_main /\
    log s' = log sys_main ++ [(1, EvCreate 5 11 0)] /\
    cerr s' = cerr sys_main ++ [CStr "pthread_create thread fail, rt="; CInt 11;
                                CStr " name="; CStr long_name].
Proof.
  apply (C4_spawn_failure (always 11 0 0) 1 5%nat (Some demo_work) long_name
           sys_main main_thread); [reflexivity|reflexivity|discriminate].
Defined.

(** C4, counterexample: the exception of a failed construction is the same
    for the error codes 11 and 1, so no function reads the code from it. *)
Lemma C4_exception_without_code :
  ~ exists code_of : exn -> Z,
      forall rt, rt <> 0 ->
        forall e s', exec (always rt 0 0) 1 (construct 5 (Some []) "worker-1") sys_main
                     = Raised e s' ->
                     code_of e = rt.
Proof.
  intros [code_of H].
  pose proof (H 11 ltac:(lia) _ _ eq_refl) as H11.
  pose proof (H 1 ltac:(lia) _ _ eq_refl) as H1.
  rewrite H11 in H1. discriminate.
Qed.

(** ** Names *)

Lemma ctor_blocks P t this cb name s k :
  heap s !! this = None -> threads s !! t = Some k ->
  let s0 := set_heap
              <[this := mkThread default_m_id default_m_thread cb name semaphore_initial]> s in
  a_rt (P s0) = 0 -> a_pt (P s0) <> 0 -> 0 < a_tid (P s0) ->
  threads s !! a_pt (P s0) = None ->
  exec P t (Thread_ctor this cb name) s
  = Blocks (record t (EvCreate this 0 (a_pt (P s0)))
              (set_threads <[a_pt (P s0) := new_kthread (a_tid (P s0)) k]>
                 (set_heap <[this := mkThread default_m_id (a_pt (P s0)) cb name
                                               semaphore_initial]> s))).
Proof.
  intros Hfree Hk s0 Hrt Hpt Htid Hnew. unfold Thread_ctor. simpl. rewrite Hfree. fold s0.
  unfold on_object, on_self. simpl. rewrite lookup_insert_eq, Hk, Hrt. simpl.
  fold s0. rewrite Hnew.
  destruct (Z.eqb_spec (a_pt (P s0)) 0) as [|_]; [contradiction|].
  destruct (Z.ltb_spec 0 (a_tid (P s0))) as [_|]; [|lia]. simpl.
  unfold on_object. simpl. rewrite lookup_insert_eq. simpl.
  unfold set_heap at 1. simpl. rewrite insert_insert_eq. reflexivity.
Qed.

(** C9: the constructor stores the name as it is given and the trampoline
    copies it unchanged to [t_thread_name]; only the name handed to
    [pthread_setname_np] is cut to 15 characters. *)
Theorem C9_only_os_name_truncated P t this w name s k :
  heap s !! this = None -> threads s !! t = Some k ->
  let s0 := set_heap
              <[this := mkThread default_m_id default_m_thread (Some w) name
                                 semaphore_initial]> s in
  a_rt (P s0) = 0 -> a_pt (P s0) <> 0 -> 0 < a_tid (P s0) ->
  threads s !! a_pt (P s0) = None ->
  renames w = false ->
  exists s1 s2 h2 k2,
    exec P t (Thread_ctor this (Some w) name) s = Blocks s1 /\
    exec P (a_pt (P s0)) (run this) s1 = Returned tt s2 /\
    heap s2 !! this = Some h2 /\ threads s2 !! a_pt (P s0) = Some k2 /\
    m_name h2 = name /\ t_thread_name k2 = name /\
    k_name k2 = c_str (substr0 15 name).
Proof.
  intros Hfree Hk s0 Hrt Hpt Htid Hnew Hw.
  rewrite (ctor_blocks P t this (Some w) name s k Hfree Hk Hrt Hpt Htid Hnew). fold s0.
  match goal with |- context [Blocks ?s1 = _] =>
    edestruct (exec_run P (a_pt (P s0)) this s1
                 (mkThread default_m_id (a_pt (P s0)) (Some w) name semaphore_initial)
                 (new_kthread (a_tid (P s0)) k) w)
      as (s2 & n1 & n2 & tail & He & Hh2 & Hk2 & _ & _ & Hn);
      [simpl; apply lookup_insert_eq | reflexivity | simpl; apply lookup_insert_eq |]
  end.
  destruct (Hn Hw) as [-> ->].
  eexists _, s2, _, _. split; [reflexivity|]. split; [exact He|].
  split; [exact Hh2|]. split; [exact Hk2|]. auto.
Qed.

(** A name of 23 characters. *)
Lemma C9_witness :
  exists s1 s2 h2 k2,
    exec (always 0 7 101) 1 (Thread_ctor 5 (Some quiet_work) long_name) sys_main = Blocks s1 /\
    exec (always 0 7 101) 7 (run 5) s1 = Returned tt s2 /\
    heap s2 !! 5%nat = Some h2 /\ threads s2 !! 7 = Some k2 /\
    m_name h2 = "worker-with-a-long-name" /\
    t_thread_name k2 = "worker-with-a-long-name" /\
    k_name k2 = "worker-with-a-l".
Proof.
  apply (C9_only_os_name_truncated (always 0 7 101) 1 5%nat quiet_work long_name
           sys_main main_thread); try reflexivity. discriminate.
Defined.

(** ** Calm code *)

Lemma calm_bind {A B : Type} (p : Prog A) (f : A -> Prog B) :
  calm p -> (forall a, calm (f a)) -> calm (bind p f).
Proof.
  intros Hp Hf. induction Hp as [a|e|X e k He Hk IH]; simpl; auto.
  - constructor.
  - constructor; auto.
Qed.

Lemma calm_perform {X : Type} (e : eff X) : calm_eff e = true -> calm (perform e).
Proof. intros H. constructor; [exact H|]. intros x. constructor. Qed.

Lemma calm_SetName n : calm (SetName n).
Proof.
  unfold SetName. apply calm_bind; [now apply calm_perform|].
  intros [th|]; (apply calm_bind; [|intros _; now apply calm_perform]).
  - now apply calm_perform.
  - constructor.
Qed.

Lemma calm_do_op o : calm (do_op o).
Proof.
  destruct o; cbn [do_op].
  - apply calm_SetName.
  - apply calm_bind; [now apply calm_perform|]. intros n. now apply calm_perform.
  - apply calm_bind; [now apply calm_perform|]. intros n. now apply calm_perform.
  - now apply calm_perform.
Qed.

Lemma calm_body w : calm (body w).
Proof.
  induction w as [|o w IH]; cbn [body]; [constructor|].
  apply calm_bind; [apply calm_do_op|]. intros _. exact IH.
Qed.

Lemma calm_join this : calm (join this).
Proof.
  unfold join. apply calm_bind; [now apply calm_perform|]. intros th.
  destruct (negb (th =? 0)); [|constructor].
  apply calm_bind; [now apply calm_perform|]. intros th'.
  apply calm_bind; [now apply calm_perform|]. intros rt.
  destruct (negb (rt =? 0)); [|now apply calm_perform].
  apply calm_bind; [now apply calm_perform|]. intros n.
  apply calm_bind; [now apply calm_perform|]. intros _. constructor.
Qed.

Lemma calm_Thread_dtor this : calm (Thread_dtor this).
Proof.
  unfold Thread_dtor. apply calm_bind; [now apply calm_perform|]. intros th.
  destruct (negb (th =? 0)); [|constructor].
  apply calm_bind; [now apply calm_perform|]. intros th'.
  apply calm_bind; [now apply calm_perform|]. intros rt. now apply calm_perform.
Qed.

Lemma calm_Vis_inv {A X : Type} (e : eff X) (k : X -> Prog A) :
  calm (Vis e k) -> calm_eff e = true /\ forall x, calm (k x).
Proof.
  intros H.
  exact (match H in calm p
               return match p with
                      | Vis e' k' => calm_eff e' = true /\ forall x, calm (k' x)
                      | _ => True
                      end
         with
         | calm_Ret _ => I
         | calm_Throw _ => I
         | calm_Vis e' k' He Hk => conj He Hk
         end).
Qed.

Lemma invocations_app l l' : invocations (l ++ l') = invocations l ++ invocations l'.
Proof.
  induction l as [|[a e] l IH]; simpl; [reflexivity|].
  destruct e; try exact IH. simpl. now rewrite IH.
Qed.

Lemma kept_refl s : kept s s.
Proof.
  split; [eauto|]. split; [eauto|]. exists []. now rewrite app_nil_r.
Qed.

Lemma kept_heap s th h0 (f : Thread -> Thread) :
  heap s !! th = Some h0 -> m_id (f h0) = m_id h0 ->
  kept s (set_heap <[th := f h0]> s).
Proof.
  intros Hh Hid. split; [|split].
  - intros th' h Hh'. simpl. destruct (decide (th = th')) as [<-|Hne].
    + rewrite lookup_insert_eq. rewrite Hh in Hh'. injection Hh' as <-. eauto.
    + rewrite lookup_insert_ne by exact Hne. eauto.
  - simpl. eauto.
  - exists []. simpl. now rewrite app_nil_r.
Qed.

Lemma kept_threads s p k0 (f : kthread -> kthread) t ev :
  threads s !! p = Some k0 -> k_tid (f k0) = k_tid k0 -> t_thread (f k0) = t_thread k0 ->
  invocations [(t, ev)] = [] ->
  kept s (record t ev (set_threads <[p := f k0]> s)).
Proof.
  intros Hk Htid Htt Hev. split; [|split].
  - simpl. eauto.
  - intros p' k Hk'. simpl. destruct (decide (p = p')) as [<-|Hne].
    + rewrite lookup_insert_eq. rewrite Hk in Hk'. injection Hk' as <-. eauto.
    + rewrite lookup_insert_ne by exact Hne. eauto.
  - exists [(t, ev)]. simpl. auto.
Qed.

Lemma kept_record s t ev : invocations [(t, ev)] = [] -> kept s (record t ev s).
Proof.
  intros Hev. split; [simpl; eauto|]. split; [simpl; eauto|]. exists [(t, ev)]. auto.
Qed.

Lemma calm_handle {X : Type} P t (e : eff X) s x s' :
  calm_eff e = true -> handle P t e s = Ok x s' ->
  spawned P s e x = None /\ kept s s'.
Proof.
  intros Hc Hh. destruct e; try discriminate; simpl in Hh; (split; [reflexivity|]).
  all: unfold update_object in Hh; unfold on_self, on_object in Hh.
  - destruct (threads s !! t); [|discriminate]. injection Hh; intros; subst. apply kept_refl.
  - destruct (threads s !! t); [|discriminate]. injection Hh; intros; subst. apply kept_refl.
  - destruct (threads s !! t) eqn:Hk; [|discriminate]. injection Hh; intros; subst.
    now apply kept_threads.
  - destruct (heap s !! this); [|discriminate]. injection Hh; intros; subst. apply kept_refl.
  - destruct (heap s !! this) eqn:Hk; [|discriminate]. injection Hh; intros; subst.
    now apply kept_heap.
  - destruct (heap s !! this); [|discriminate]. injection Hh; intros; subst. apply kept_refl.
  - destruct (heap s !! this) eqn:Hk; [|discriminate]. injection Hh; intros; subst.
    now apply kept_heap.
  - destruct (threads s !! t); [|discriminate]. injection Hh; intros; subst. apply kept_refl.
  - destruct (threads s !! t); [|discriminate]. injection Hh; intros; subst. apply kept_refl.
  - destruct (threads s !! target) eqn:Hk.
    + destruct (String.length s0 <=? 15)%nat; injection Hh; intros; subst.
      * now apply kept_threads.
      * now apply kept_record.
    + injection Hh; intros; subst. now apply kept_record.
  - destruct (a_rt (P s) =? 0).
    + destruct (threads s !! target) eqn:Hk; [|discriminate].
      destruct (k_disp k) eqn:Hd; try discriminate.
      destruct (target =? t); [discriminate|].
      destruct (k_done k); [|discriminate]. injection Hh; intros; subst.
      now apply kept_threads.
    + injection Hh; intros; subst. now apply kept_record.
  - destruct (threads s !! target) eqn:Hk.
    + destruct (k_disp k) eqn:Hd; injection Hh; intros; subst.
      * now apply kept_threads.
      * now apply kept_record.
      * now apply kept_record.
    + injection Hh; intros; subst. now apply kept_record.
  - injection Hh; intros; subst. split; [simpl; eauto|]. split; [simpl; eauto|].
    exists []. simpl. now rewrite app_nil_r.
  - injection Hh; intros; subst. apply kept_record. simpl in Hc.
    destruct e; try discriminate; reflexivity.
Qed.

(** ** Program points of the constructor and of the trampoline *)

Section Handshake.
Variables (P : platform) (mt : Z) (k0 : kthread) (this : nat) (cb : std_function)
          (name : string) (rest : Prog unit).

Abbreviation mpc := (main_pc this cb name rest).
Abbreviation cpc := (child_pc this).

Lemma main_pc_0 : mpc [] = Vis (InitMembers this cb name) (fun _ => mpc [AUnit]).
Proof. reflexivity. Qed.

Lemma main_pc_1 :
  mpc [AUnit] = Vis (PthreadCreate this this) (fun rt => mpc [AUnit; AZ rt]).
Proof. reflexivity. Qed.

Lemma main_pc_wait : mpc [AUnit; AZ 0] = Vis (SemWait this) (fun _ => rest).
Proof. reflexivity. Qed.

Lemma main_pc_fail0 rt :
  rt <> 0 ->
  mpc [AUnit; AZ rt]
  = Vis (Cerr [CStr "pthread_create thread fail, rt="; CInt rt; CStr " name="; CStr name])
        (fun _ => mpc [AUnit; AZ rt; AUnit]).
Proof.
  intros H. unfold main_pc, resumes. simpl.
  destruct (Z.eqb_spec rt 0); [contradiction|]. reflexivity.
Qed.

Lemma main_pc_fail1 rt :
  rt <> 0 ->
  mpc [AUnit; AZ rt; AUnit]
  = Vis (DestroyMembers this) (fun _ => mpc [AUnit; AZ rt; AUnit; AUnit]).
Proof.
  intros H. unfold main_pc, resumes. simpl.
  destruct (Z.eqb_spec rt 0); [contradiction|]. reflexivity.
Qed.

Lemma main_pc_fail2 rt :
  rt <> 0 ->
  mpc [AUnit; AZ rt; AUnit; AUnit] = Throw (logic_error "pthread_create error").
Proof.
  intros H. unfold main_pc, resumes. simpl.
  destruct (Z.eqb_spec rt 0); [contradiction|]. reflexivity.
Qed.

Variables (pt tid : Z).
Abbreviation answers := (init_answers cb name pt tid).
Lemma child_pc_0 :
  cpc (firstn 0 answers)
  = Vis (TlsSetThread (Some this)) (fun _ => cpc (firstn 1 answers)).
Proof. reflexivity. Qed.

Lemma child_pc_1 :
  cpc (firstn 1 answers) = Vis (LoadName this) (fun n => cpc [AUnit; AStr n]).
Proof. reflexivity. Qed.

Lemma child_pc_2 :
  cpc (firstn 2 answers) = Vis (TlsSetName name) (fun _ => cpc (firstn 3 answers)).
Proof. reflexivity. Qed.

Lemma child_pc_3 :
  cpc (firstn 3 answers)
  = Vis SysGettid (fun id => cpc [AUnit; AStr name; AUnit; AZ id]).
Proof. reflexivity. Qed.

Lemma child_pc_4 :
  cpc (firstn 4 answers) = Vis (StoreId this tid) (fun _ => cpc (firstn 5 answers)).
Proof. reflexivity. Qed.

Lemma child_pc_5 :
  cpc (firstn 5 answers)
  = Vis PthreadSelf
        (fun self => cpc [AUnit; AStr name; AUnit; AZ tid; AUnit; AZ self]).
Proof. reflexivity. Qed.

Lemma child_pc_6 :
  cpc (firstn 6 answers)
  = Vis (LoadName this)
        (fun n => cpc [AUnit; AStr name; AUnit; AZ tid; AUnit; AZ pt; AStr n]).
Proof. reflexivity. Qed.

Lemma child_pc_7 :
  cpc (firstn 7 answers)
  = Vis (PthreadSetname pt (c_str (substr0 15 name)))
        (fun rt => cpc [AUnit; AStr name; AUnit; AZ tid; AUnit; AZ pt; AStr name;
                        AZ rt]).
Proof. reflexivity. Qed.

Lemma child_pc_8 :
  cpc (firstn 8 answers)
  = Vis (SwapCb this None)
        (fun f => cpc [AUnit; AStr name; AUnit; AZ tid; AUnit; AZ pt; AStr name;
                       AZ 0; AFn f]).
Proof. reflexivity. Qed.

Lemma child_pc_9 :
  cpc (firstn 9 answers) = Vis (SemSignal this) (fun _ => cpc answers).
Proof. reflexivity. Qed.

Lemma child_pc_10 : cpc answers = (invoke cb ;; Ret tt).
Proof. reflexivity. Qed.
End Handshake.

(** ** The states of the handshake are kept by every step *)

Section Preservation.
Variables (P : platform) (mt : Z) (k0 : kthread) (this : nat) (cb : std_function)
          (name : string) (rest : Prog unit).
Hypothesis rest_calm : calm rest.

Abbreviation inv := (Inv mt k0 this cb name rest).

Lemma step_start x w' :
  step P x (start mt k0 this cb name rest) = Some w' -> inv w'.
Proof.
  destruct x; [|discriminate]. unfold start, step. cbn [w_main w_sys w_creator w_child].
  change (construct this cb name;; rest) with (main_pc this cb name rest []).
  rewrite main_pc_0. simpl. rewrite lookup_empty. simpl.
  intros [= <-]. apply inv_made; simpl; [apply lookup_insert_eq|reflexivity|reflexivity].
Qed.

Lemma step_made s x w' :
  heap s !! this
    = Some (mkThread default_m_id default_m_thread cb name semaphore_initial) ->
  threads s = {[mt := k0]} -> log s = [] ->
  step P x (mkWorld mt s (main_pc this cb name rest [AUnit]) None) = Some w' -> inv w'.
Proof.
  intros Hh Hk Hl. destruct x; [|discriminate]. unfold step.
  cbn [w_main w_sys w_creator w_child]. rewrite main_pc_1. simpl.
  rewrite (on_object_at _ _ _ _ Hh). unfold on_self. rewrite Hk, lookup_singleton_eq.
  simpl. destruct (Z.eqb_spec (a_rt (P s)) 0) as [Hrt|Hrt].
  - destruct (({[mt := k0]} : gmap Z kthread) !! a_pt (P s)) eqn:Hfresh; [discriminate|].
    destruct (Z.eqb_spec (a_pt (P s)) 0) as [|Hpt]; [discriminate|].
    destruct (Z.ltb_spec 0 (a_tid (P s))) as [Htid|]; [|discriminate].
    simpl. intros [= <-].
    apply (inv_init mt k0 this cb name rest _ (a_pt (P s)) (a_tid (P s)) 0%nat); auto.
    + lia.
    + intros Heq. rewrite Heq, lookup_singleton_eq in Hfresh. discriminate.
    + simpl. now rewrite lookup_insert_eq.
    + simpl. rewrite Hk. now rewrite lookup_insert_eq.
    + simpl. now rewrite Hl.
  - simpl. destruct (Z.eqb_spec (a_rt (P s)) 0) as [|_]; [contradiction|].
    intros [= <-]. apply (inv_failed mt k0 this cb name rest _ (a_rt (P s)) 0%nat); auto.
    simpl. now rewrite Hl.
Qed.

Lemma step_failed s rt n x w' :
  rt <> 0 -> (n <= 2)%nat -> log s = [(mt, EvCreate this rt 0)] ->
  step P x (mkWorld mt s (main_pc this cb name rest ([AUnit; AZ rt] ++ repeat AUnit n)) None)
    = Some w' ->
  inv w'.
Proof.
  intros Hrt Hn Hl. destruct x; [|discriminate]. unfold step.
  cbn [w_main w_sys w_creator w_child].
  destruct n as [|[|[|n]]]; [| | |lia]; cbn [repeat app].
  - rewrite (main_pc_fail0 this cb name rest rt Hrt). simpl. intros [= <-].
    apply (inv_failed mt k0 this cb name rest _ rt 1%nat); [assumption|lia|exact Hl].
  - rewrite (main_pc_fail1 this cb name rest rt Hrt). simpl. unfold on_object.
    destruct (heap s !! this); [|discriminate]. intros [= <-].
    apply (inv_failed mt k0 this cb name rest _ rt 2%nat); [assumption|lia|exact Hl].
  - rewrite (main_pc_fail2 this cb name rest rt Hrt). discriminate.
Qed.

Ltac child_effect lem :=
  unfold step; cbn [w_main w_sys w_creator w_child]; rewrite lem; simpl;
  unfold on_self, on_object; simpl.

Ltac next_state Hh Hk Hl :=
  eexists; split; [reflexivity|]; split; [|split];
  [ first [exact Hh | simpl; rewrite lookup_insert_eq; reflexivity]
  | first [exact Hk | simpl; rewrite lookup_insert_eq; reflexivity]
  | simpl; rewrite Hl; reflexivity ].

(** Before its signal the spawned thread can always move, and its next
    effect is the next one of the trampoline. *)
Lemma init_step s pt tid i :
  (i <= 9)%nat ->
  heap s !! this = Some (handle_at cb name pt tid i) ->
  threads s !! pt = Some (kthread_at k0 this name tid i) ->
  log s = log_at mt this cb name pt tid i ->
  exists s',
    step P Spawned (mkWorld mt s (main_pc this cb name rest [AUnit; AZ 0])
                      (Some (pt, child_pc this (firstn i (init_answers cb name pt tid)))))
    = Some (mkWorld mt s' (main_pc this cb name rest [AUnit; AZ 0])
              (Some (pt, child_pc this (firstn (S i) (init_answers cb name pt tid))))) /\
    heap s' !! this = Some (handle_at cb name pt tid (S i)) /\
    threads s' !! pt = Some (kthread_at k0 this name tid (S i)) /\
    log s' = log_at mt this cb name pt tid (S i).
Proof.
  intros Hi Hh Hk Hl.
  destruct i as [|[|[|[|[|[|[|[|[|[|i]]]]]]]]]]; [..|lia].
  - child_effect (child_pc_0 this cb name pt tid). rewrite Hk. simpl. next_state Hh Hk Hl.
  - child_effect (child_pc_1 this cb name pt tid). rewrite Hh. simpl. next_state Hh Hk Hl.
  - child_effect (child_pc_2 this cb name pt tid). rewrite Hk. simpl. next_state Hh Hk Hl.
  - child_effect (child_pc_3 this cb name pt tid). rewrite Hk. simpl. next_state Hh Hk Hl.
  - child_effect (child_pc_4 this cb name pt tid). rewrite Hh. simpl. next_state Hh Hk Hl.
  - child_effect (child_pc_5 this cb name pt tid). rewrite Hk. simpl. next_state Hh Hk Hl.
  - child_effect (child_pc_6 this cb name pt tid). rewrite Hh. simpl. next_state Hh Hk Hl.
  - child_effect (child_pc_7 this cb name pt tid). rewrite Hk. simpl.
    rewrite os_name_fits. simpl. next_state Hh Hk Hl.
  - child_effect (child_pc_8 this cb name pt tid). rewrite Hh. simpl. next_state Hh Hk Hl.
  - child_effect (child_pc_9 this cb name pt tid). rewrite Hh. simpl. next_state Hh Hk Hl.
Qed.

Lemma step_init s pt tid i x w' :
  (i <= 9)%nat -> pt <> mt -> pt <> 0 -> 0 < tid ->
  heap s !! this = Some (handle_at cb name pt tid i) ->
  threads s !! pt = Some (kthread_at k0 this name tid i) ->
  log s = log_at mt this cb name pt tid i ->
  step P x (mkWorld mt s (main_pc this cb name rest [AUnit; AZ 0])
              (Some (pt, child_pc this (firstn i (init_answers cb name pt tid)))))
    = Some w' ->
  inv w'.
Proof.
  intros Hi Hne Hpt Htid Hh Hk Hl. destruct x.
  - (* the creating thread waits *)
    assert (Hs : m_semaphore (handle_at cb name pt tid i) = 0%nat).
    { unfold handle_at. cbn [m_semaphore]. destruct (Nat.leb_spec 10 i); [lia|reflexivity]. }
    unfold step. cbn [w_main w_sys w_creator w_child]. rewrite main_pc_wait.
    cbn [advance handle]. rewrite (on_object_at _ _ _ _ Hh), Hs. discriminate.
  - (* the spawned thread does the next effect of the trampoline *)
    destruct (init_step s pt tid i Hi Hh Hk Hl) as (s' & Hs & Hh' & Hk' & Hl').
    rewrite Hs. intros [= <-].
    destruct (Nat.eq_dec i 9%nat) as [->|Hlast].
    + apply (inv_ready mt k0 this cb name rest s' pt tid _ _ []
               (handle_at cb name pt tid 10) (kthread_at k0 this name tid 10)
               Hne Htid Hh');
        [reflexivity|exact Hk'|reflexivity|reflexivity| |now left|now left].
      rewrite Hl'. now rewrite app_nil_r.
    + apply (inv_init mt k0 this cb name rest s' pt tid (S i)); auto. lia.
Qed.

Lemma child_ok_more pt tid pc later evs :
  invocations evs = [] ->
  child_ok this cb name pt tid pc later -> child_ok this cb name pt tid pc (later ++ evs).
Proof.
  intros Hev [[Hpc Hi]|[Hc (w & Hcb & Hi)]].
  - left. split; [exact Hpc|]. now rewrite invocations_app, Hi, Hev.
  - right. split; [exact Hc|]. exists w. split; [exact Hcb|].
    now rewrite invocations_app, Hi, Hev.
Qed.

(** A calm effect of either thread keeps the state of readiness. *)
Lemma ready_kept s s' pt tid pm pc later h k :
  pt <> mt -> 0 < tid ->
  heap s !! this = Some h -> m_id h = tid ->
  threads s !! pt = Some k -> k_tid k = tid -> t_thread k = Some this ->
  log s = log_at mt this cb name pt tid 10 ++ later ->
  kept s s' ->
  main_ok this cb name rest pm -> 
  (forall evs, invocations evs = [] -> child_ok this cb name pt tid pc (later ++ evs)) ->
  inv (mkWorld mt s' pm (Some (pt, pc))).
Proof.
  intros Hne Htid Hh Hid Hk Hkt Htt Hl (Kh & Kk & evs & Kl & Ki) Hm Hc.
  destruct (Kh _ _ Hh) as (h' & Hh' & Hid').
  destruct (Kk _ _ Hk) as (k' & Hk' & Hkt' & Htt').
  apply (inv_ready mt k0 this cb name rest s' pt tid pm pc (later ++ evs) h' k');
    try assumption; try congruence.
  - rewrite Kl, Hl. now rewrite app_assoc.
  - now apply Hc.
Qed.

Lemma step_ready s pt tid pm pc later h k x w' :
  pt <> mt -> 0 < tid ->
  heap s !! this = Some h -> m_id h = tid ->
  threads s !! pt = Some k -> k_tid k = tid -> t_thread k = Some this ->
  log s = log_at mt this cb name pt tid 10 ++ later ->
  main_ok this cb name rest pm -> child_ok this cb name pt tid pc later ->
  step P x (mkWorld mt s pm (Some (pt, pc))) = Some w' ->
  inv w'.
Proof.
  intros Hne Htid Hh Hid Hk Hkt Htt Hl Hm Hc. destruct x.
  - (* the creating thread *)
    unfold step. cbn [w_main w_sys w_creator w_child].
    destruct Hm as [->|Hcalm].
    + rewrite main_pc_wait. cbn [advance handle]. rewrite (on_object_at _ _ _ _ Hh).
      destruct (m_semaphore h) as [|c]; [discriminate|]. simpl. intros [= <-].
      apply (ready_kept s _ pt tid rest pc later h k); try assumption.
      * split; [|split].
        -- intros th h1 Hh1. simpl. destruct (decide (this = th)) as [<-|Hd].
           ++ rewrite lookup_insert_eq. rewrite Hh in Hh1. injection Hh1 as <-. eauto.
           ++ rewrite lookup_insert_ne by exact Hd. eauto.
        -- simpl. eauto.
        -- exists [(mt, EvWait this)]. simpl. auto.
      * now right.
      * intros evs Hev. now apply child_ok_more.
    + destruct pm as [u|e|X e kk]; [discriminate|discriminate|].
      apply calm_Vis_inv in Hcalm as [He Hkk]. cbn [advance].
      destruct (handle P mt e s) as [y s'| |] eqn:Hy; [|discriminate|discriminate].
      destruct (calm_handle P mt e s y s' He Hy) as [-> Hkept].
      intros [= <-].
      apply (ready_kept s s' pt tid (kk y) pc later h k); try assumption.
      * right. apply Hkk.
      * intros evs Hev. now apply child_ok_more.
  - (* the spawned thread *)
    unfold step. cbn [w_main w_sys w_creator w_child].
    destruct Hc as [[-> Hi]|[Hcalm (w & Hcb & Hi)]].
    + rewrite child_pc_10. destruct cb as [w|] eqn:Hcb; [|discriminate].
      simpl. intros [= <-].
      eapply (inv_ready mt k0 this (Some w) name rest _ pt tid pm _
                (later ++ [(pt, EvInvoke w)]) h k); try eassumption.
      * simpl. rewrite Hl. now rewrite <- app_assoc.
      * right. split.
        -- apply calm_bind; [apply calm_body|]. intros _. constructor.
        -- exists w. split; [reflexivity|]. rewrite invocations_app, Hi. reflexivity.
    + destruct pc as [u|e|X e kk].
      * unfold finish. rewrite Hk. destruct (k_done k); [discriminate|].
        intros [= <-].
        apply (inv_ready mt k0 this cb name rest _ pt tid pm (Ret u) later h
                 (with_k_done true k)); try assumption.
        -- simpl. now rewrite lookup_insert_eq.
        -- right. split; [constructor|]. now exists w.
      * discriminate.
      * apply calm_Vis_inv in Hcalm as [He Hkk]. cbn [advance].
        destruct (handle P pt e s) as [y s'| |] eqn:Hy; [|discriminate|discriminate].
        destruct (calm_handle P pt e s y s' He Hy) as [-> Hkept].
        intros [= <-].
        apply (ready_kept s s' pt tid pm (kk y) later h k); try assumption.
        intros evs Hev. apply child_ok_more; [exact Hev|].
        right. split; [apply Hkk|]. now exists w.
Qed.

Lemma inv_step x w w' : inv w -> step P x w = Some w' -> inv w'.
Proof.
  intros Hinv. destruct Hinv.
  - apply step_start.
  - now apply step_made.
  - now apply step_failed.
  - now apply step_init.
  - now apply (step_ready s pt tid pm pc later h k).
Qed.

Lemma inv_run sched : forall w, inv w -> inv (run_sched P sched w).
Proof.
  induction sched as [|x sched IH]; intros w Hinv; simpl; [exact Hinv|].
  destruct (step P x w) as [w'|] eqn:Hs.
  - apply IH. exact (inv_step x w w' Hinv Hs).
  - now apply IH.
Qed.
End Preservation.

(** ** The handshake completes *)

Section Progress.
Variables (P : platform) (mt : Z) (k0 : kthread) (this : nat) (cb : std_function)
          (name : string) (rest : Prog unit).

Lemma init_steps n : forall s pt tid i,
  (i + n <= 10)%nat ->
  heap s !! this = Some (handle_at cb name pt tid i) ->
  threads s !! pt = Some (kthread_at k0 this name tid i) ->
  log s = log_at mt this cb name pt tid i ->
  exists s',
    run_sched P (repeat Spawned n)
      (mkWorld mt s (main_pc this cb name rest [AUnit; AZ 0])
         (Some (pt, child_pc this (firstn i (init_answers cb name pt tid)))))
    = mkWorld mt s' (main_pc this cb name rest [AUnit; AZ 0])
        (Some (pt, child_pc this (firstn (i + n) (init_answers cb name pt tid)))) /\
    heap s' !! this = Some (handle_at cb name pt tid (i + n)) /\
    threads s' !! pt = Some (kthread_at k0 this name tid (i + n)) /\
    log s' = log_at mt this cb name pt tid (i + n).
Proof.
  induction n as [|n IH]; intros s pt tid i Hi Hh Hk Hl.
  - exists s. rewrite Nat.add_0_r. auto.
  - destruct (init_step P mt k0 this cb name rest s pt tid i)
      as (s1 & Hs & Hh1 & Hk1 & Hl1); try assumption; [lia|].
    cbn [repeat run_sched]. rewrite Hs.
    destruct (IH s1 pt tid (S i)) as (s' & Hr & Hh' & Hk' & Hl'); try assumption; [lia|].
    exists s'. replace (i + S n)%nat with (S i + n)%nat by lia. auto.
Qed.

Lemma run_sched_app l1 : forall l2 w,
  run_sched P (l1 ++ l2) w = run_sched P l2 (run_sched P l1 w).
Proof.
  induction l1 as [|x l1 IH]; intros l2 w; simpl; [reflexivity|].
  destruct (step P x w); apply IH.
Qed.

(** When the platform makes the thread, the constructor returns as soon as
    the spawned thread has been given its ten steps. *)
Lemma handshake_completes :
  let s0 := set_heap
              <[this := mkThread default_m_id default_m_thread cb name semaphore_initial]>
              (boot mt k0) in
  a_rt (P s0) = 0 -> a_pt (P s0) <> 0 -> a_pt (P s0) <> mt -> 0 < a_tid (P s0) ->
  exists s',
    run_sched P ([Creator; Creator] ++ repeat Spawned 10 ++ [Creator])
      (start mt k0 this cb name rest)
    = mkWorld mt s' rest
        (Some (a_pt (P s0), child_pc this (init_answers cb name (a_pt (P s0)) (a_tid (P s0))))) /\
    log s' = log_at mt this cb name (a_pt (P s0)) (a_tid (P s0)) 10 ++ [(mt, EvWait this)].
Proof.
  intros s0 Hrt Hpt Hne Htid.
  assert (Hh0 : heap s0 !! this
                = Some (mkThread default_m_id default_m_thread cb name semaphore_initial))
    by (simpl; apply lookup_insert_eq).
  assert (Hk0 : threads s0 !! mt = Some k0) by (simpl; apply lookup_singleton_eq).
  assert (Hnew : threads s0 !! a_pt (P s0) = None)
    by (simpl; apply lookup_singleton_ne; congruence).
  pose (s1 := record mt (EvCreate this 0 (a_pt (P s0)))
                (set_threads <[a_pt (P s0) := new_kthread (a_tid (P s0)) k0]>
                   (set_heap <[this := with_thread (a_pt (P s0))
                                 (mkThread default_m_id default_m_thread cb name
                                           semaphore_initial)]> s0))).
  assert (H2 : run_sched P [Creator; Creator] (start mt k0 this cb name rest)
               = mkWorld mt s1 (main_pc this cb name rest [AUnit; AZ 0])
                   (Some (a_pt (P s0),
                          child_pc this
                            (firstn 0 (init_answers cb name (a_pt (P s0)) (a_tid (P s0))))))).
  { cbn [run_sched]. unfold start, step at 1. cbn [w_main w_sys w_creator w_child].
    change (construct this cb name;; rest) with (main_pc this cb name rest []).
    rewrite main_pc_0. simpl advance. rewrite lookup_empty. fold s0.
    unfold step at 1. cbn [w_main w_sys w_creator w_child]. rewrite main_pc_1.
    cbn [advance handle]. unfold on_object, on_self.
    rewrite Hh0, Hk0. cbv zeta. rewrite Hrt, Hnew. simpl.
    destruct (Z.eqb_spec (a_pt (P s0)) 0) as [|_]; [contradiction|].
    destruct (Z.ltb_spec 0 (a_tid (P s0))) as [_|]; [|lia]. reflexivity. }
  rewrite run_sched_app, H2, run_sched_app.
  destruct (init_steps 10 s1 (a_pt (P s0)) (a_tid (P s0)) 0%nat)
    as (s2 & Hr & Hh2 & Hk2 & Hl2);
    [ lia
    | simpl; rewrite lookup_insert_eq; reflexivity
    | simpl; rewrite lookup_insert_eq; reflexivity
    | reflexivity | ].
  rewrite Hr. cbn [run_sched]. unfold step. cbn [w_main w_sys w_creator w_child].
  rewrite main_pc_wait. cbn [advance handle]. rewrite (on_object_at _ _ _ _ Hh2). simpl.
  eexists. split; [reflexivity|]. simpl. rewrite Hl2. reflexivity.
Qed.
End Progress.

(** ** The handshake *)

Lemma not_in_log_at mt this cb name pt tid i ev :
  pt <> mt -> In (mt, ev) (log_at mt this cb name pt tid i) -> ev = EvCreate this 0 pt.
Proof.
  intros Hne [H|H]; [congruence|].
  apply in_map_iff in H as (e & [= Hpt _] & _). contradiction.
Qed.

(** In no reachable state has the callable been invoked twice, or by the
    creating thread. *)
Lemma invoked_at_most_once P mt k0 this w name rest sched :
  calm rest ->
  let l := invocations (log (w_sys (run_sched P sched (start mt k0 this (Some w) name rest)))) in
  l = [] \/ exists pt, pt <> mt /\ l = [(pt, w)].
Proof.
  intros Hrest.
  pose proof (inv_run P mt k0 this (Some w) name rest Hrest sched _
                (inv_start mt k0 this (Some w) name rest)) as Hinv.
  remember (run_sched P sched (start mt k0 this (Some w) name rest)) as W eqn:HW. clear HW.
  destruct Hinv as [|s Hh Hk Hl|s rt n Hrt Hn Hl|s pt tid i Hi Hne Hpt Htid Hh Hk Hl
                   |s pt tid pm pc later h k Hne Htid Hh Hid Hk Hkt Htt Hl Hm Hc]; simpl.
  - now left.
  - rewrite Hl. now left.
  - rewrite Hl. now left.
  - rewrite Hl. left. unfold log_at. simpl.
    destruct i as [|[|[|[|[|[|[|[|[|[|i]]]]]]]]]]; reflexivity.
  - rewrite Hl, invocations_app. destruct Hc as [[-> Hi]|[Hcalm (w' & [= <-] & Hi)]].
    + left. now rewrite Hi.
    + right. exists pt. split; [exact Hne|]. now rewrite Hi.
Qed.

(** * Further properties *)

(** ** Renaming *)

Lemma SetName_returns P t n s s' :
  exec P t (SetName n) s = Returned tt s' ->
  exists k, threads s !! t = Some k /\
    match t_thread k with
    | Some th =>
        exists h, heap s !! th = Some h /\
          s' = record t (EvTlsName n)
                 (set_threads <[t := with_t_thread_name n k]>
                    (set_heap <[th := with_name n h]> s))
    | None =>
        s' = record t (EvTlsName n) (set_threads <[t := with_t_thread_name n k]> s)
    end.
Proof.
  intros H. destruct (threads s !! t) as [k|] eqn:Hk.
  - exists k. split; [reflexivity|]. destruct (t_thread k) as [th|] eqn:Hth.
    + destruct (heap s !! th) as [h|] eqn:Hh.
      * exists h. split; [reflexivity|].
        rewrite (SetName_owned P t s k th h n Hk Hth Hh) in H. congruence.
      * revert H. unfold SetName. simpl. rewrite (on_self_at _ _ _ _ Hk), Hth. simpl.
        unfold update_object, on_object. rewrite Hh. discriminate.
    + rewrite (SetName_unowned P t s k n Hk Hth) in H. congruence.
  - revert H. unfold SetName. simpl. unfold on_self. rewrite Hk. discriminate.
Qed.

(** X1: [SetName] changes nothing of any other thread, no handle but the
    one [t_thread] of the caller points to, of that handle the name only,
    and writes nothing to [std::cerr]. *)
Theorem SetName_touches_only_the_caller P t n s s' :
  exec P t (SetName n) s = Returned tt s' ->
  (forall p, p <> t -> threads s' !! p = threads s !! p) /\
  (forall th, (forall k, threads s !! t = Some k -> t_thread k <> Some th) ->
              heap s' !! th = heap s !! th) /\
  (forall th h, heap s !! th = Some h ->
     exists h', heap s' !! th = Some h' /\ m_id h' = m_id h /\ m_thread h' = m_thread h /\
                m_cb h' = m_cb h /\ m_semaphore h' = m_semaphore h) /\
  cerr s' = cerr s.
Proof.
  intros H. destruct (SetName_returns P t n s s' H) as (k & Hk & Hs).
  destruct (t_thread k) as [th|] eqn:Hth.
  - destruct Hs as (h & Hh & ->). simpl. split; [|split; [|split]].
    + intros p Hp. now rewrite lookup_insert_ne.
    + intros th' Hth'. rewrite lookup_insert_ne; [reflexivity|].
      intros <-. now apply (Hth' k Hk).
    + intros th' h' Hh'. destruct (decide (th = th')) as [<-|Hne].
      * rewrite lookup_insert_eq. rewrite Hh in Hh'. injection Hh' as <-. eauto 10.
      * rewrite lookup_insert_ne by exact Hne. eauto 10.
    + reflexivity.
  - subst s'. simpl. split; [|split; [|split]].
    + intros p Hp. now rewrite lookup_insert_ne.
    + reflexivity.
    + eauto 10.
    + reflexivity.
Qed.

(** Thread 7 renames itself; thread 1 is as before. *)
Lemma SetName_touches_only_the_caller_witness :
  exists s',
    exec (always 0 0 0) 7 (SetName "renamed") sys_running = Returned tt s' /\
    (forall p, p <> 7 -> threads s' !! p = threads sys_running !! p) /\
    (forall th, (forall k, threads sys_running !! 7 = Some k -> t_thread k <> Some th) ->
                heap s' !! th = heap sys_running !! th) /\
    (forall th h, heap sys_running !! th = Some h ->
       exists h', heap s' !! th = Some h' /\ m_id h' = m_id h /\ m_thread h' = m_thread h /\
                  m_cb h' = m_cb h /\ m_semaphore h' = m_semaphore h) /\
    cerr s' = cerr sys_running.
Proof.
  eexists. split; [reflexivity|].
  apply (SetName_touches_only_the_caller (always 0 0 0) 7 "renamed" sys_running).
  reflexivity.
Defined.

(** X2: two [SetName] calls in a row leave the handle and the threads as the
    second call alone does, and [GetName] then returns the second name. *)
Theorem SetName_last_wins P t s k a b :
  threads s !! t = Some k ->
  (forall th, t_thread k = Some th -> is_Some (heap s !! th)) ->
  exists s1 s2 s2',
    exec P t (SetName a) s = Returned tt s1 /\
    exec P t (SetName b) s1 = Returned tt s2 /\
    exec P t (SetName b) s = Returned tt s2' /\
    heap s2 = heap s2' /\ threads s2 = threads s2' /\
    exec P t GetName s2 = Returned b s2.
Proof.
  intros Hk Hlive. destruct (t_thread k) as [th|] eqn:Hth.
  - destruct (Hlive th eq_refl) as [h Hh].
    eexists _, _, _.
    split; [apply (SetName_owned P t s k th h a Hk Hth Hh)|].
    split; [apply (SetName_owned P t _ (with_t_thread_name a k) th (with_name a h) b);
            [simpl; apply lookup_insert_eq | exact Hth | simpl; apply lookup_insert_eq]|].
    split; [apply (SetName_owned P t s k th h b Hk Hth Hh)|].
    split; [simpl; now rewrite ?insert_insert_eq|].
    split; [simpl; now rewrite ?insert_insert_eq|].
    rewrite (GetName_reads P t _ (with_t_thread_name b (with_t_thread_name a k)));
      [reflexivity|]. simpl. apply lookup_insert_eq.
  - eexists _, _, _.
    split; [apply (SetName_unowned P t s k a Hk Hth)|].
    split; [apply (SetName_unowned P t _ (with_t_thread_name a k) b);
            [simpl; apply lookup_insert_eq | exact Hth]|].
    split; [apply (SetName_unowned P t s k b Hk Hth)|].
    split; [simpl; now rewrite ?insert_insert_eq|].
    split; [simpl; now rewrite ?insert_insert_eq|].
    rewrite (GetName_reads P t _ (with_t_thread_name b (with_t_thread_name a k)));
      [reflexivity|]. simpl. apply lookup_insert_eq.
Qed.

(** Thread 7 renames itself twice. *)
Lemma SetName_last_wins_witness :
  exists s1 s2 s2',
    exec (always 0 0 0) 7 (SetName "first") sys_running = Returned tt s1 /\
    exec (always 0 0 0) 7 (SetName "second") s1 = Returned tt s2 /\
    exec (always 0 0 0) 7 (SetName "second") sys_running = Returned tt s2' /\
    heap s2 = heap s2' /\ threads s2 = threads s2' /\
    exec (always 0 0 0) 7 GetName s2 = Returned "second" s2.
Proof.
  apply (SetName_last_wins (always 0 0 0) 7 sys_running
           (mkKthread 101 "worker-1" false Joinable (Some 5%nat) "worker-1")
           "first" "second").
  - reflexivity.
  - intros th [= <-]. eexists. reflexivity.
Defined.

(** ** The trampoline, to its end *)

(** X3: the trampoline, run to its end with a callable in the handle, ends
    by returning; it leaves [m_id] set to the kernel id, [m_cb] empty, the
    semaphore signalled once, the OS-level name cut to 15 characters, the
    name of handle and thread as the work last set it, and in the log its
    seven own entries followed by those of the work, in which
    [GetThreadId()] sees the value of [m_id] and [GetName()] the name given
    at construction or the latest one set. *)
Theorem run_exact P pt this s h k w :
  heap s !! this = Some h -> m_cb h = Some w -> threads s !! pt = Some k ->
  exec P pt (run this) s
  = Returned tt
      (mkSys (<[this := mkThread (k_tid k) (m_thread h) None (final_name (m_name h) w)
                                 (S (m_semaphore h))]> (heap s))
             (<[pt := mkKthread (k_tid k) (c_str (substr0 15 (m_name h))) (k_done k)
                                (k_disp k) (Some this) (final_name (m_name h) w)]>
                (threads s))
             (cerr s)
             (log s ++ [(pt, EvTlsThread (Some this));
                        (pt, EvTlsName (m_name h));
                        (pt, EvStoreId this (k_tid k));
                        (pt, EvOsName pt (c_str (substr0 15 (m_name h))) 0);
                        (pt, EvTakeCb this (Some w));
                        (pt, EvSignal this);
                        (pt, EvInvoke w)]
                   ++ work_trace pt (k_tid k) (m_name h) w)).
Proof.
  intros Hh Hcb Hk. rewrite (run_until_call P pt this s h k Hh Hk), Hcb.
  rewrite exec_bind. cbn [invoke]. rewrite exec_bind.
  change (exec P pt (perform (Emit (EvInvoke w))) (at_call pt this h k s))
    with (Returned tt (record pt (EvInvoke w) (at_call pt this h k s))).
  cbv beta iota.
  rewrite (exec_body_exact P pt this w _
             (mkThread (k_tid k) (m_thread h) None (m_name h) (S (m_semaphore h)))
             (mkKthread (k_tid k) (c_str (substr0 15 (m_name h))) (k_done k) (k_disp k)
                        (Some this) (m_name h)));
    [|simpl; apply lookup_insert_eq|simpl; apply lookup_insert_eq|reflexivity].
  cbn [exec]. f_equal. apply sys_eq; simpl.
  - rewrite insert_insert_eq. reflexivity.
  - rewrite insert_insert_eq. reflexivity.
  - reflexivity.
  - rewrite Hcb, <- !app_assoc. reflexivity.
Qed.

(** X4: with an empty [std::function] in the handle the trampoline still
    does all of its start-up, signal included, and then ends with
    [std::bad_function_call]: nothing is invoked, and the waiting
    constructor is released all the same. *)
Theorem run_empty_callable P pt this s h k :
  heap s !! this = Some h -> m_cb h = None -> threads s !! pt = Some k ->
  exec P pt (run this) s = Raised bad_function_call (at_call pt this h k s).
Proof.
  intros Hh Hcb Hk. rewrite (run_until_call P pt this s h k Hh Hk), Hcb. reflexivity.
Qed.

(** The trampoline of thread 7 with [demo_work]. *)
Lemma run_exact_witness :
  exec (always 0 0 0) 7 (run 5) (sys_spawned demo_work)
  = Returned tt
      (mkSys (<[5%nat := mkThread 101 7 None "renamed" 1%nat]>
                (heap (sys_spawned demo_work)))
             (<[7 := mkKthread 101 "worker-with-a-l" false Joinable (Some 5%nat) "renamed"]>
                (threads (sys_spawned demo_work)))
             []
             ([(1, EvCreate 5 0 7)]
              ++ [(7, EvTlsThread (Some 5%nat));
                  (7, EvTlsName long_name);
                  (7, EvStoreId 5 101);
                  (7, EvOsName 7 "worker-with-a-l" 0);
                  (7, EvTakeCb 5 (Some demo_work));
                  (7, EvSignal 5);
                  (7, EvInvoke demo_work)]
              ++ [(7, EvSawId 101); (7, EvTlsName "renamed"); (7, EvUser 3)])).
Proof.
  apply (run_exact (always 0 0 0) 7 5%nat (sys_spawned demo_work)
           (mkThread default_m_id 7 (Some demo_work) long_name 0%nat)
           (new_kthread 101 main_thread) demo_work); reflexivity.
Defined.

(** The trampoline of thread 7 on a handle without a callable. *)
Lemma run_empty_callable_witness :
  exec (always 0 0 0) 7 (run 5) sys_running
  = Raised bad_function_call
      (at_call 7 5 (mkThread 101 7 None "worker-1" 0%nat)
         (mkKthread 101 "worker-1" false Joinable (Some 5%nat) "worker-1") sys_running).
Proof.
  apply (run_empty_callable (always 0 0 0) 7 5%nat sys_running
           (mkThread 101 7 None "worker-1" 0%nat)
           (mkKthread 101 "worker-1" false Joinable (Some 5%nat) "worker-1")); reflexivity.
Defined.

(** ** More on join and the destructor *)

(** X6: when the platform reports no error, [join()] on a handle with a
    thread attached does not return while that thread runs, and changes
    nothing meanwhile; once the thread has ended it returns after one
    [pthread_join], with [m_thread] cleared. *)
Theorem join_waits_for_the_thread P t this s h k :
  heap s !! this = Some h -> m_thread h <> 0 -> m_thread h <> t ->
  a_rt (P s) = 0 ->
  threads s !! m_thread h = Some k -> k_disp k = Joinable ->
  exec P t (join this) s =
  if k_done k
  then Returned tt
         (set_heap <[this := with_thread 0 h]>
            (record t (EvJoin (m_thread h) 0)
               (set_threads <[m_thread h := with_k_disp Joined k]> s)))
  else Blocks s.
Proof.
  intros Hh Hpt Hne Hrt Hk Hd. destruct (k_done k) eqn:Hdone.
  - now apply join_success.
  - unfold join. simpl. rewrite (on_object_at _ _ _ _ Hh). simpl.
    destruct (Z.eqb_spec (m_thread h) 0) as [|_]; [contradiction|]. simpl.
    rewrite (on_object_at _ _ _ _ Hh). simpl.
    rewrite Hrt. simpl. rewrite Hk, Hd, Hdone.
    destruct (Z.eqb_spec (m_thread h) t) as [|_]; [contradiction|]. reflexivity.
Qed.

(** The thread is still running. *)
Lemma join_waits_for_the_thread_witness :
  exec (always 0 0 0) 1 (join 5) sys_running = Blocks sys_running.
Proof.
  apply (join_waits_for_the_thread (always 0 0 0) 1 5%nat sys_running
           (mkThread 101 7 None "worker-1" 0%nat)
           (mkKthread 101 "worker-1" false Joinable (Some 5%nat) "worker-1"));
    try reflexivity; discriminate.
Defined.

(** X8: after a [join()] that returned normally the destructor calls
    nothing and changes nothing: the thread is not detached after it was
    joined. *)
Theorem destructor_after_join_calls_nothing P P' t t' this s s1 :
  exec P t (join this) s = Returned tt s1 ->
  exec P' t' (Thread_dtor this) s1 = Returned tt s1.
Proof.
  intros H.
  assert (Hz : exists h1, heap s1 !! this = Some h1 /\ m_thread h1 = 0).
  { destruct (heap s !! this) as [h|] eqn:Hh.
    - destruct (Z.eq_dec (m_thread h) 0) as [H0|H0].
      + rewrite (join_unattached P t this s h Hh H0) in H. injection H as <-. eauto.
      + destruct (Z.eq_dec (a_rt (P s)) 0) as [Hrt|Hrt].
        * revert H. unfold join. simpl. rewrite (on_object_at _ _ _ _ Hh). simpl.
          destruct (Z.eqb_spec (m_thread h) 0) as [|_]; [contradiction|]. simpl.
          rewrite (on_object_at _ _ _ _ Hh). simpl. rewrite Hrt. simpl.
          destruct (threads s !! m_thread h) as [k|]; [|discriminate].
          destruct (k_disp k); try discriminate.
          destruct (m_thread h =? t); [discriminate|].
          destruct (k_done k); [|discriminate]. simpl.
          unfold update_object, on_object. simpl. rewrite Hh. intros [= <-].
          exists (with_thread 0 h). split; [|reflexivity]. simpl. apply lookup_insert_eq.
        * rewrite (join_failure P t this s h Hh H0 Hrt) in H. discriminate.
    - revert H. unfold join. simpl. unfold on_object. rewrite Hh. discriminate. }
  destruct Hz as (h1 & Hh1 & Hz). exact (dtor_unattached P' t' this s1 h1 Hh1 Hz).
Qed.

(** [join()], then the destructor. *)
Lemma destructor_after_join_witness :
  exists s1,
    exec (always 0 0 0) 1 (join 5) sys_ended = Returned tt s1 /\
    exec (always 0 0 0) 1 (Thread_dtor 5) s1 = Returned tt s1.
Proof.
  eexists. split; [reflexivity|].
  apply (destructor_after_join_calls_nothing (always 0 0 0) (always 0 0 0) 1 1 5%nat
           sys_ended). reflexivity.
Defined.

(** X7: a [join()] whose [pthread_join] failed can be repeated: when the
    thread has ended and the platform then reports success, the second
    [join()] returns with [m_thread] cleared, and the handle was passed to
    [pthread_join] just these two times. *)
Theorem join_can_be_retried P P' t this s h k :
  heap s !! this = Some h -> m_thread h <> 0 -> m_thread h <> t ->
  threads s !! m_thread h = Some k -> k_disp k = Joinable -> k_done k = true ->
  a_rt (P s) <> 0 -> (forall s1, a_rt (P' s1) = 0) ->
  exists s1 s2 h2,
    exec P t (join this) s = Raised (logic_error "pthread_join error") s1 /\
    exec P' t (join this) s1 = Returned tt s2 /\
    heap s2 !! this = Some h2 /\ m_thread h2 = 0 /\
    calls_on (m_thread h) (log s2)
    = calls_on (m_thread h) (log s) ++ [a_rt (P s); 0].
Proof.
  intros Hh Hpt Hne Hk Hd Hdone Hrt Hrt'.
  pose proof (join_failure P t this s h Hh Hpt Hrt) as H1.
  eexists _, _, _. split; [exact H1|].
  split; [apply (join_success P' t this _ h k); auto|].
  split; [simpl; apply lookup_insert_eq|]. split; [reflexivity|].
  simpl. rewrite !calls_on_app. simpl. rewrite Z.eqb_refl, <- app_assoc. reflexivity.
Qed.

(** [pthread_join] fails with [EDEADLK], then succeeds. *)
Lemma join_can_be_retried_witness :
  exists s1 s2 h2,
    exec (always EDEADLK 0 0) 1 (join 5) sys_ended
    = Raised (logic_error "pthread_join error") s1 /\
    exec (always 0 0 0) 1 (join 5) s1 = Returned tt s2 /\
    heap s2 !! 5%nat = Some h2 /\ m_thread h2 = 0 /\
    calls_on 7 (log s2) = calls_on 7 (log sys_ended) ++ [EDEADLK; 0].
Proof.
  apply (join_can_be_retried (always EDEADLK 0 0) (always 0 0 0) 1 5%nat sys_ended
           (mkThread 101 7 None "worker-1" 0%nat)
           (mkKthread 101 "worker-1" true Joinable (Some 5%nat) "worker-1"));
    try reflexivity; discriminate.
Defined.

(** ** The name given to the platform *)

Lemma c_str_prefix s : String.prefix (c_str s) s = true.
Proof.
  induction s as [|c s IH]; simpl; [reflexivity|].
  destruct (Ascii.eqb c Ascii.zero); simpl; [reflexivity|].
  destruct (ascii_dec c c); [exact IH|contradiction].
Qed.

Lemma substr0_prefix n s : String.prefix (substr0 n s) s = true.
Proof.
  unfold substr0. revert s. induction n as [|n IH]; intros [|c s]; simpl; try reflexivity.
  destruct (ascii_dec c c); [apply IH|contradiction].
Qed.

Lemma prefix_trans a : forall b c,
  String.prefix a b = true -> String.prefix b c = true -> String.prefix a c = true.
Proof.
  induction a as [|x a IH]; intros [|y b] [|z c]; simpl; try reflexivity; try discriminate.
  destruct (ascii_dec x y) as [->|]; [|discriminate].
  destruct (ascii_dec y z) as [->|]; [|discriminate].
  apply IH.
Qed.

Lemma c_str_nul_free s : nul_free s = true -> c_str s = s.
Proof.
  induction s as [|c s IH]; simpl; [reflexivity|].
  destruct (Ascii.eqb c Ascii.zero); simpl; [discriminate|]. intros H. now rewrite IH.
Qed.

(** X5: the name the trampoline hands to [pthread_setname_np] has at most 15
    characters and no NUL, is a prefix of the stored name, and is the stored
    name itself when that has at most 15 characters and no NUL. *)
Theorem os_name_is_a_short_prefix n :
  (String.length (c_str (substr0 15 n)) <= 15)%nat /\
  String.prefix (c_str (substr0 15 n)) n = true /\
  nul_free (c_str (substr0 15 n)) = true /\
  ((String.length n <= 15)%nat -> nul_free n = true -> c_str (substr0 15 n) = n).
Proof.
  split; [|split; [|split]].
  - pose proof (c_str_length (substr0 15 n)). pose proof (substr0_length 15 n). lia.
  - apply (prefix_trans _ (substr0 15 n)); [apply c_str_prefix|apply substr0_prefix].
  - generalize (substr0 15 n). intros s. induction s as [|c s IH]; simpl; [reflexivity|].
    destruct (Ascii.eqb c Ascii.zero) eqn:Hc; simpl; [reflexivity|]. now rewrite Hc.
  - intros Hlen Hnul. rewrite (substr0_short 15 n Hlen). now apply c_str_nul_free.
Qed.

(** A short name is handed on as it is. *)
Lemma os_name_is_a_short_prefix_witness : c_str (substr0 15 "worker-1") = "worker-1".
Proof.
  apply (os_name_is_a_short_prefix "worker-1"); [simpl; lia|reflexivity].
Defined.

(** ** What no effect does *)

Ltac handle_cases H :=
  unfold handle, update_object, on_object, on_self in H;
  repeat case_match; simplify_eq.

(** No effect makes a thread vanish, changes its kernel id or marks it as
    ended; the two thread-local variables of a thread are written by that
    thread only, and [t_thread] by [TlsSetThread] only. *)
Lemma handle_keeps_threads {X : Type} P t (e : eff X) s y s' p k :
  handle P t e s = Ok y s' -> threads s !! p = Some k ->
  exists k', threads s' !! p = Some k' /\ k_tid k' = k_tid k /\ k_done k' = k_done k /\
    (p <> t \/ sets_t_thread e = false -> t_thread k' = t_thread k) /\
    (p <> t -> t_thread_name k' = t_thread_name k).
Proof.
  intros H Hk. destruct e; handle_cases H; simpl.
  all: try (exists k; repeat split; auto; fail).
  all: try (destruct (decide (t = p)) as [->|];
            [ rewrite lookup_insert_eq; simplify_eq; eexists; split; [reflexivity|];
              simpl; repeat split; auto; intros []; congruence
            | rewrite lookup_insert_ne by assumption; exists k; repeat split; auto ]; fail).
  all: try (destruct (decide (target = p)) as [->|];
            [ rewrite lookup_insert_eq; simplify_eq; eexists; split; [reflexivity|];
              simpl; repeat split; auto
            | rewrite lookup_insert_ne by assumption; exists k; repeat split; auto ]; fail).
  rewrite lookup_insert_ne by (intros Heq; rewrite Heq in *; congruence).
  exists k. repeat split; auto.
Qed.

(** A thread of the state after an effect was there before, unless the
    effect was the [pthread_create] that made it; a new thread has not
    ended. *)
Lemma handle_new_threads {X : Type} P t (e : eff X) s y s' p k' :
  handle P t e s = Ok y s' -> threads s' !! p = Some k' ->
  (exists k, threads s !! p = Some k /\ k_done k = k_done k') \/
  ((exists arg, spawned P s e y = Some (p, arg)) /\ k_done k' = false).
Proof.
  intros H Hk. destruct e; handle_cases H; simpl in Hk.
  all: try (left; exists k'; split; [assumption|reflexivity]; fail).
  all: try (left; destruct (decide (t = p)) as [->|];
            [ rewrite lookup_insert_eq in Hk; simplify_eq; eexists; split; [eassumption|];
              reflexivity
            | rewrite lookup_insert_ne in Hk by assumption; exists k'; auto ]; fail).
  all: try (left; destruct (decide (target = p)) as [->|];
            [ rewrite lookup_insert_eq in Hk; simplify_eq; eexists; split; [eassumption|];
              reflexivity
            | rewrite lookup_insert_ne in Hk by assumption; exists k'; auto ]; fail).
  destruct (decide (a_pt (P s) = p)) as [<-|Hne].
  - right. rewrite lookup_insert_eq in Hk. simplify_eq. split; [|reflexivity].
    exists arg. simpl. reflexivity.
  - left. rewrite lookup_insert_ne in Hk by assumption. exists k'. auto.
Qed.

(** An entry of a successful [pthread_join] enters the log only when the
    joined thread has ended. *)
Lemma handle_join_log {X : Type} P t (e : eff X) s y s' t' p :
  forges_join e = false -> handle P t e s = Ok y s' ->
  In (t', EvJoin p 0) (log s') ->
  In (t', EvJoin p 0) (log s) \/ exists k, threads s !! p = Some k /\ k_done k = true.
Proof.
  intros Hf H Hin. destruct e; handle_cases H; simpl in Hin.
  all: try (left; assumption).
  all: apply in_app_or in Hin as [Hin|[Hin|[]]]; try (left; assumption); simplify_eq.
  - right. eauto.
  - rewrite H in H0. discriminate.
Qed.

(** ** Steps, taken apart *)

Lemma step_creator P w w' :
  step P Creator w = Some w' ->
  exists (X : Type) (e : eff X) (k : X -> Prog unit) (y : X),
    w_main w = Vis e k /\
    handle P (w_creator w) e (w_sys w) = Ok y (w_sys w') /\
    w_creator w' = w_creator w /\ w_main w' = k y /\
    match spawned P (w_sys w) e y with
    | None => w_child w' = w_child w
    | Some (pt, arg) => w_child w = None /\ w_child w' = Some (pt, run arg)
    end.
Proof.
  unfold step, advance. destruct (w_main w) as [u|ex|X e k]; try discriminate.
  destruct (handle P (w_creator w) e (w_sys w)) as [y s'| |] eqn:Hy; try discriminate.
  destruct (spawned P (w_sys w) e y) as [[pt arg]|] eqn:Hsp.
  - destruct (w_child w) eqn:Hc; [discriminate|]. intros [= <-].
    exists X, e, k, y. simpl. rewrite Hsp. auto 10.
  - intros [= <-]. exists X, e, k, y. simpl. rewrite Hsp. auto 10.
Qed.

Lemma step_spawned P w w' :
  step P Spawned w = Some w' ->
  exists pt pc,
    w_child w = Some (pt, pc) /\ w_creator w' = w_creator w /\ w_main w' = w_main w /\
    ((exists u, pc = Ret u /\ finish pt (w_sys w) = Some (w_sys w') /\
                w_child w' = Some (pt, pc)) \/
     (exists (X : Type) (e : eff X) (k : X -> Prog unit) (y : X),
        pc = Vis e k /\ handle P pt e (w_sys w) = Ok y (w_sys w') /\
        spawned P (w_sys w) e y = None /\ w_child w' = Some (pt, k y))).
Proof.
  unfold step. destruct (w_child w) as [[pt pc]|] eqn:Hc; [|discriminate].
  destruct pc as [u|ex|X e k].
  - destruct (finish pt (w_sys w)) as [s'|] eqn:Hf; [|discriminate]. intros [= <-].
    exists pt, (Ret u). simpl. split; [reflexivity|]. split; [reflexivity|].
    split; [reflexivity|]. left. exists u. auto.
  - discriminate.
  - unfold advance. destruct (handle P pt e (w_sys w)) as [y s'| |] eqn:Hy; try discriminate.
    destruct (spawned P (w_sys w) e y) as [[q arg]|] eqn:Hsp; [discriminate|].
    intros [= <-]. exists pt, (Vis e k). simpl. split; [reflexivity|].
    split; [reflexivity|]. split; [reflexivity|]. right. exists X, e, k, y. auto.
Qed.

Lemma calm_next_effect (p : Prog unit) :
  calm p ->
  next_effect (@sets_t_thread) p = false /\ next_effect (@forges_join) p = false.
Proof.
  intros H. destruct p as [u|ex|X e k]; [auto|auto|].
  apply calm_Vis_inv in H as [He _]. simpl.
  destruct e; try discriminate; auto. destruct e; try discriminate; auto.
Qed.

Section Heads.
Variables (mt : Z) (k0 : kthread) (this : nat) (cb : std_function)
          (name : string) (rest : Prog unit).

(** What the two threads do next, in every state of the handshake: the
    creating thread does not write [t_thread], neither thread writes a join
    entry to the log by itself, and the spawned thread is another thread. *)
Lemma inv_next w :
  Inv mt k0 this cb name rest w ->
  w_creator w = mt /\
  next_effect (@sets_t_thread) (w_main w) = false /\
  next_effect (@forges_join) (w_main w) = false /\
  forall pt pc, w_child w = Some (pt, pc) ->
                pt <> mt /\ next_effect (@forges_join) pc = false.
Proof.
  intros Hinv.
  destruct Hinv as [|s Hh Hk Hl|s rt n Hrt Hn Hl|s pt tid i Hi Hne Hpt Htid Hh Hk Hl
                   |s pt tid pm pc later h k Hne Htid Hh Hid Hk Hkt Htt Hl Hm Hc].
  - unfold start. cbn [w_creator w_main w_child].
    change (construct this cb name;; rest) with (main_pc this cb name rest []).
    rewrite main_pc_0. simpl. repeat split; auto; discriminate.
  - cbn [w_creator w_main w_child]. rewrite main_pc_1. simpl.
    repeat split; auto; discriminate.
  - cbn [w_creator w_main w_child].
    destruct n as [|[|[|n]]]; [| | |lia]; cbn [repeat app].
    + rewrite (main_pc_fail0 this cb name rest rt Hrt). simpl.
      repeat split; auto; discriminate.
    + rewrite (main_pc_fail1 this cb name rest rt Hrt). simpl.
      repeat split; auto; discriminate.
    + rewrite (main_pc_fail2 this cb name rest rt Hrt). simpl.
      repeat split; auto; discriminate.
  - cbn [w_creator w_main w_child]. rewrite main_pc_wait. simpl.
    split; [reflexivity|]. split; [reflexivity|]. split; [reflexivity|].
    intros pt' pc' [= <- <-]. split; [exact Hne|].
    destruct i as [|[|[|[|[|[|[|[|[|[|i]]]]]]]]]]; [..|lia].
    + now rewrite (child_pc_0 this cb name pt tid).
    + now rewrite (child_pc_1 this cb name pt tid).
    + now rewrite (child_pc_2 this cb name pt tid).
    + now rewrite (child_pc_3 this cb name pt tid).
    + now rewrite (child_pc_4 this cb name pt tid).
    + now rewrite (child_pc_5 this cb name pt tid).
    + now rewrite (child_pc_6 this cb name pt tid).
    + now rewrite (child_pc_7 this cb name pt tid).
    + now rewrite (child_pc_8 this cb name pt tid).
    + now rewrite (child_pc_9 this cb name pt tid).
  - cbn [w_creator w_main w_child]. split; [reflexivity|].
    assert (Hmain : next_effect (@sets_t_thread) pm = false /\
                    next_effect (@forges_join) pm = false).
    { destruct Hm as [->|Hcalm]; [rewrite main_pc_wait; auto|now apply calm_next_effect]. }
    split; [apply Hmain|]. split; [apply Hmain|].
    intros pt' pc' [= <- <-]. split; [exact Hne|].
    destruct Hc as [[-> _]|[Hcalm _]].
    + rewrite child_pc_10. now destruct cb.
    + now apply calm_next_effect.
Qed.
End Heads.

(** ** What holds in every state the two threads reach *)

Lemma handle_spawned {X : Type} P t (e : eff X) s y s' p arg :
  handle P t e s = Ok y s' -> spawned P s e y = Some (p, arg) ->
  exists k', threads s' !! p = Some k' /\ k_done k' = false.
Proof.
  intros H Hsp. destruct e; try discriminate. simpl in Hsp.
  destruct (y =? 0) eqn:Hy; [|discriminate]. injection Hsp as <- <-.
  handle_cases H; simpl; [|congruence].
  rewrite lookup_insert_eq. eexists. split; reflexivity.
Qed.

Lemma finish_threads pt s s' :
  finish pt s = Some s' ->
  log s' = log s /\
  exists k, threads s !! pt = Some k /\ k_done k = false /\
            threads s' = <[pt := with_k_done true k]> (threads s).
Proof.
  unfold finish. destruct (threads s !! pt) as [k|]; [|discriminate].
  destruct (k_done k) eqn:Hd; [discriminate|]. intros [= <-]. simpl. eauto.
Qed.

Section Reached.
Variables (P : platform) (mt : Z) (k0 : kthread) (this : nat) (cb : std_function)
          (name : string) (rest : Prog unit).
Hypothesis rest_calm : calm rest.

Abbreviation inv := (Inv mt k0 this cb name rest).

Lemma creator_unowned_step x w w' :
  inv w -> creator_unowned k0 w -> step P x w = Some w' -> creator_unowned k0 w'.
Proof.
  intros Hinv (km & Hkm & Htt) Hs. unfold creator_unowned.
  destruct (inv_next mt k0 this cb name rest w Hinv) as (Hmt & Hset & _ & Hchild).
  destruct x.
  - apply step_creator in Hs as (X & e & k & y & Hm & Hh & Hc & _).
    rewrite Hm in Hset. simpl in Hset.
    destruct (handle_keeps_threads P _ e _ y _ _ km Hh Hkm) as (k' & Hk' & _ & _ & Hkeep & _).
    exists k'. rewrite Hc. split; [exact Hk'|]. rewrite Hkeep; auto.
  - apply step_spawned in Hs as (pt & pc & Hc & Hcr & _ & Hcase).
    destruct (Hchild pt pc Hc) as [Hne _]. rewrite Hcr.
    destruct Hcase as [(u & _ & Hf & _)|(X & e & k & y & _ & Hh & _)].
    + apply finish_threads in Hf as (_ & kp & _ & _ & Hth).
      exists km. rewrite Hth, lookup_insert_ne; [auto|]. rewrite Hmt. exact Hne.
    + destruct (handle_keeps_threads P _ e _ y _ _ km Hh Hkm)
        as (k' & Hk' & _ & _ & Hkeep & _).
      exists k'. split; [exact Hk'|]. rewrite Hkeep; auto. left. rewrite Hmt. auto.
Qed.

Lemma ended_means_returned_step x w w' :
  ended_means_returned w -> step P x w = Some w' -> ended_means_returned w'.
Proof.
  intros Hw Hs pt pc k' Hc' Hk' Hd. destruct x.
  - apply step_creator in Hs as (X & e & k & y & _ & Hh & _ & _ & Hsp).
    destruct (spawned P (w_sys w) e y) as [[q arg]|] eqn:Hq.
    + destruct Hsp as [_ Hnew]. rewrite Hnew in Hc'. injection Hc' as <- <-.
      destruct (handle_spawned P _ e _ y _ q arg Hh Hq) as (k2 & Hk2 & Hd2). congruence.
    + rewrite Hsp in Hc'.
      destruct (handle_new_threads P _ e _ y _ pt k' Hh Hk') as [(k1 & Hk1 & Hd1)|[[arg Ha] _]];
        [|congruence].
      apply (Hw pt pc k1 Hc' Hk1). congruence.
  - apply step_spawned in Hs as (q & qc & Hc & _ & _ & Hcase).
    destruct Hcase as [(u & -> & _ & Hcw)|(X & e & k & y & -> & Hh & Hq & Hcw)].
    + rewrite Hcw in Hc'. injection Hc' as <- <-. eauto.
    + rewrite Hcw in Hc'. injection Hc' as <- <-.
      destruct (handle_new_threads P _ e _ y _ q k' Hh Hk') as [(k1 & Hk1 & Hd1)|[[arg Ha] _]];
        [|congruence].
      destruct (Hw q (Vis e k) k1 Hc Hk1) as [u Hu]; [congruence|discriminate].
Qed.

Lemma joined_means_ended_step x w w' :
  inv w -> joined_means_ended (w_sys w) -> step P x w = Some w' ->
  joined_means_ended (w_sys w').
Proof.
  intros Hinv Hw Hs t p Hin.
  destruct (inv_next mt k0 this cb name rest w Hinv) as (Hmt & _ & Hforge & Hchild).
  assert (Hkeep : forall (X : Type) (e : eff X) y a,
             forges_join e = false -> handle P a e (w_sys w) = Ok y (w_sys w') ->
             exists k, threads (w_sys w') !! p = Some k /\ k_done k = true).
  { intros X e y a Hf Hh.
    assert (Hold : exists k, threads (w_sys w) !! p = Some k /\ k_done k = true).
    { destruct (handle_join_log P a e _ y _ t p Hf Hh Hin) as [Hin0|Hk]; [|exact Hk].
      exact (Hw t p Hin0). }
    destruct Hold as (k & Hk & Hd).
    destruct (handle_keeps_threads P a e _ y _ p k Hh Hk) as (k' & Hk' & _ & Hd' & _).
    exists k'. split; [exact Hk'|congruence]. }
  destruct x.
  - apply step_creator in Hs as (X & e & k & y & Hm & Hh & _).
    rewrite Hm in Hforge. exact (Hkeep X e y _ Hforge Hh).
  - apply step_spawned in Hs as (q & qc & Hc & _ & _ & Hcase).
    destruct (Hchild q qc Hc) as [_ Hf].
    destruct Hcase as [(u & _ & Hfin & _)|(X & e & k & y & -> & Hh & _)].
    + apply finish_threads in Hfin as (Hl & kq & Hkq & _ & Hth).
      rewrite Hl in Hin. destruct (Hw t p Hin) as (k & Hk & Hd).
      rewrite Hth. destruct (decide (q = p)) as [->|Hne].
      * rewrite lookup_insert_eq. eexists. split; reflexivity.
      * rewrite lookup_insert_ne by exact Hne. eauto.
    + exact (Hkeep X e y _ Hf Hh).
Qed.

Lemma reached sched : forall w,
  inv w -> creator_unowned k0 w -> ended_means_returned w -> joined_means_ended (w_sys w) ->
  let w' := run_sched P sched w in
  inv w' /\ creator_unowned k0 w' /\ ended_means_returned w' /\ joined_means_ended (w_sys w').
Proof.
  induction sched as [|x sched IH]; intros w Hi Hc He Hj; simpl; [auto|].
  destruct (step P x w) as [w1|] eqn:Hs; [|now apply IH].
  apply IH.
  - exact (inv_step P mt k0 this cb name rest rest_calm x w w1 Hi Hs).
  - exact (creator_unowned_step x w w1 Hi Hc Hs).
  - exact (ended_means_returned_step x w w1 He Hs).
  - exact (joined_means_ended_step x w w1 Hi Hj Hs).
Qed.

Lemma reached_from_start sched :
  let w := run_sched P sched (start mt k0 this cb name rest) in
  inv w /\ creator_unowned k0 w /\ ended_means_returned w /\ joined_means_ended (w_sys w).
Proof.
  apply reached.
  - apply inv_start.
  - exists k0. split; [apply lookup_singleton_eq|reflexivity].
  - intros pt pc k [=].
  - intros t p [].
Qed.
End Reached.

(** ** The work, run by the spawned thread *)

Lemma events_of_app pt l1 l2 : events_of pt (l1 ++ l2) = events_of pt l1 ++ events_of pt l2.
Proof.
  induction l1 as [|[t e] l1 IH]; simpl; [reflexivity|].
  destruct (t =? pt); simpl; now rewrite IH.
Qed.

Lemma events_of_own pt evs : events_of pt (map (pair pt) evs) = evs.
Proof.
  induction evs as [|e evs IH]; simpl; [reflexivity|]. now rewrite Z.eqb_refl, IH.
Qed.

Lemma events_of_others pt t (l : list (Z * event)) :
  t <> pt -> (forall ev, In ev l -> ev.1 = t) -> events_of pt l = [].
Proof.
  intros Hne. induction l as [|[t' e] l IH]; intros H; simpl; [reflexivity|].
  assert (t' = t) as -> by (apply (H (t', e)); now left).
  destruct (Z.eqb_spec t pt); [contradiction|]. apply IH. intros ev Hin. apply H. now right.
Qed.

Lemma invocations_events_of pt w l :
  In (pt, w) (invocations l) <-> In (EvInvoke w) (events_of pt l).
Proof.
  induction l as [|[t e] l IH]; simpl; [tauto|].
  destruct (Z.eqb_spec t pt) as [->|Hne].
  - destruct e; simpl; rewrite <- ?IH; try (split; [tauto|intros [[=]|]; tauto]).
    split; intros [H|H]; auto; left; congruence.
  - destruct e; simpl; rewrite <- ?IH; try tauto.
    split; [intros [[=]|]; [contradiction|tauto]|tauto].
Qed.

Lemma current_name_app cur a b :
  current_name cur (a ++ b) = current_name (current_name cur a) b.
Proof.
  revert cur. induction a as [|e a IH]; intros cur; simpl; [reflexivity|].
  destruct e; apply IH.
Qed.

Lemma current_name_work pt tid w : forall cur,
  current_name cur (map snd (work_trace pt tid cur w)) = final_name cur w.
Proof.
  induction w as [|o w IH]; intros cur; simpl; [reflexivity|].
  destruct o; simpl; apply IH.
Qed.

Lemma remaining_bind tid this (p : Prog unit) (f : unit -> Prog unit) : forall cur,
  remaining tid this cur (bind p f)
  = match remaining tid this cur p with
    | Some tr =>
        match remaining tid this (current_name cur tr) (f tt) with
        | Some tr' => Some (tr ++ tr')
        | None => None
        end
    | None => None
    end.
Proof.
  induction p as [[]|ex|X e k IH]; intros cur; simpl.
  - now destruct (remaining tid this cur (f tt)).
  - reflexivity.
  - destruct (own_effect tid this cur e) as [[[x evs] c]|] eqn:He; [|reflexivity].
    rewrite IH. destruct (remaining tid this c (k x)) as [tr|]; [|reflexivity].
    assert (Hc : current_name cur (evs ++ tr) = current_name c tr).
    { rewrite current_name_app. f_equal.
      destruct e; simpl in He; try discriminate; simplify_eq; try reflexivity.
      - destruct (Nat.eqb this0 this); simplify_eq. reflexivity.
      - destruct (user_event e) eqn:Hu; simplify_eq. destruct e; try discriminate; reflexivity. }
    rewrite Hc. destruct (remaining tid this (current_name c tr) (f tt)); [|reflexivity].
    now rewrite app_assoc.
Qed.

Lemma remaining_body pt tid this w : forall cur,
  remaining tid this cur (body w) = Some (map snd (work_trace pt tid cur w)).
Proof.
  induction w as [|o w IH]; intros cur; [reflexivity|].
  cbn [body]. rewrite remaining_bind.
  destruct o as [n| | |n]; simpl; rewrite ?Nat.eqb_refl; simpl; rewrite IH; reflexivity.
Qed.

Lemma remaining_call pt tid this w cur :
  remaining tid this cur (body w ;; Ret tt) = Some (map snd (work_trace pt tid cur w)).
Proof.
  rewrite remaining_bind, (remaining_body pt). simpl. now rewrite app_nil_r.
Qed.

(** Every entry an effect adds to the log carries the calling thread. *)
Lemma handle_log {X : Type} P t (e : eff X) s y s' :
  handle P t e s = Ok y s' ->
  exists evs, log s' = log s ++ evs /\ forall ev, In ev evs -> ev.1 = t.
Proof.
  intros H. destruct e; handle_cases H; simpl.
  all: try (exists []; rewrite app_nil_r; split; [reflexivity|intros ev []]; fail).
  all: eexists [_]; split; [reflexivity|]; intros ev [<-|[]]; reflexivity.
Qed.

(** An effect of the thread's own does to the state what [own_effect]
    says. *)
Lemma own_effect_handle {X : Type} P pt (e : eff X) s y s' k this x evs c :
  own_effect (k_tid k) this (t_thread_name k) e = Some (x, evs, c) ->
  threads s !! pt = Some k -> t_thread k = Some this ->
  handle P pt e s = Ok y s' ->
  y = x /\ log s' = log s ++ map (pair pt) evs /\ c = current_name (t_thread_name k) evs /\
  exists k', threads s' !! pt = Some k' /\ k_tid k' = k_tid k /\ t_thread_name k' = c.
Proof.
  intros He Hk Htt H.
  destruct e; simpl in He; try discriminate; handle_cases H; simpl.
  all: rewrite ?app_nil_r, ?lookup_insert_eq.
  all: try (repeat split; eauto; fail).
  destruct e; try discriminate; repeat split; eauto.
Qed.

(** Such an effect can always be done. *)
Lemma own_effect_enabled {X : Type} P pt (e : eff X) s k h tid this cur r :
  own_effect tid this cur e = Some r ->
  threads s !! pt = Some k -> heap s !! this = Some h ->
  exists y s', handle P pt e s = Ok y s' /\ spawned P s e y = None.
Proof.
  intros He Hk Hh. destruct e; simpl in He; try discriminate; simpl;
    unfold update_object, on_object, on_self; rewrite ?Hk; eauto.
  destruct (Nat.eqb_spec this0 this) as [->|]; [|discriminate]. rewrite Hh. eauto.
Qed.

Lemma events_of_log_at mt this cb name pt tid i :
  pt <> mt ->
  events_of pt (log_at mt this cb name pt tid i)
  = firstn (events_after i) (init_events this cb name pt tid).
Proof.
  intros Hne. unfold log_at. cbn [events_of].
  destruct (Z.eqb_spec mt pt); [congruence|]. apply events_of_own.
Qed.

Lemma signal_in_log_at mt this cb name pt tid i :
  pt <> mt -> In (pt, EvSignal this) (log_at mt this cb name pt tid i) -> (10 <= i)%nat.
Proof.
  intros Hne [H|H]; [congruence|].
  apply in_map_iff in H as (e & [= ->] & H).
  destruct i as [|[|[|[|[|[|[|[|[|[|i]]]]]]]]]]; [..|lia]; simpl in H;
    repeat (destruct H as [H|H]; [discriminate|]); contradiction.
Qed.

Lemma signal_in_ready mt this cb name pt tid later :
  In (pt, EvSignal this) (log_at mt this cb name pt tid 10 ++ later).
Proof. apply in_or_app. left. simpl. tauto. Qed.

(** Until there is a spawned thread every entry of the log is one of the
    creating thread. *)
Lemma inv_no_child_log mt k0 this cb name rest w :
  Inv mt k0 this cb name rest w -> w_child w = None ->
  forall ev, In ev (log (w_sys w)) -> ev.1 = mt.
Proof.
  intros Hinv Hc ev Hin.
  destruct Hinv as [|s Hh Hk Hl|s rt n Hrt Hn Hl|s pt tid i Hi Hne Hpt Htid Hh Hk Hl
                   |s pt tid pm pc later h k Hne Htid Hh Hid Hk Hkt Htt Hl Hm Hcc];
    simpl in Hin; try discriminate.
  - contradiction.
  - rewrite Hl in Hin. contradiction.
  - rewrite Hl in Hin. destruct Hin as [<-|[]]. reflexivity.
Qed.

Lemma at_work_step P mt k0 this cb name rest x w w' :
  Inv mt k0 this cb name rest w -> Inv mt k0 this cb name rest w' ->
  at_work this cb name w -> step P x w = Some w' -> at_work this cb name w'.
Proof.
  intros Hinv Hinv' Hw Hs pt pc k' Hc' Hk' Hin'.
  destruct (inv_next mt k0 this cb name rest w Hinv) as (Hmt & _).
  destruct (inv_next mt k0 this cb name rest w' Hinv') as (_ & _ & _ & Hchild').
  destruct (Hchild' pt pc Hc') as [Hne _]. clear Hchild' Hinv'.
  destruct x.
  - (* the creating thread: nothing of the spawned thread changes *)
    apply step_creator in Hs as (X & e & kk & y & _ & Hh & _ & _ & Hsp).
    rewrite Hmt in Hh.
    destruct (handle_log P mt e _ y _ Hh) as (evs & Hl & Hact).
    assert (Hev : events_of pt (log (w_sys w')) = events_of pt (log (w_sys w))).
    { rewrite Hl, events_of_app, (events_of_others pt mt evs), app_nil_r; auto. }
    assert (Hin : In (pt, EvSignal this) (log (w_sys w))).
    { rewrite Hl in Hin'. apply in_app_or in Hin' as [Hin'|Hin']; [assumption|].
      apply Hact in Hin'. simpl in Hin'. congruence. }
    destruct (spawned P (w_sys w) e y) as [[q arg]|] eqn:Hq.
    + destruct Hsp as [Hnone _]. exfalso.
      apply (inv_no_child_log mt k0 this cb name rest w Hinv Hnone) in Hin.
      simpl in Hin. congruence.
    + rewrite Hsp in Hc'.
      destruct (handle_new_threads P mt e _ y _ pt k' Hh Hk') as [(k1 & Hk1 & _)|[[arg Ha] _]];
        [|congruence].
      destruct (handle_keeps_threads P mt e _ y _ pt k1 Hh Hk1)
        as (k2 & Hk2 & Htid & _ & _ & Hname).
      rewrite Hk' in Hk2. injection Hk2 as <-.
      specialize (Hw pt pc k1 Hc' Hk1 Hin). rewrite Hev, Htid, (Hname Hne). exact Hw.
  - (* the spawned thread *)
    destruct Hinv as [|s Hh Hk Hl|s rt n Hrt Hn Hl|s q tid i Hi Hneq Hpt Htid Hh Hk Hl
                     |s q tid pm qc later h k Hneq Htid Hh Hid Hk Hkt Htt Hl Hm Hcc];
      try discriminate.
    + (* in the trampoline: only its last effect is the signal *)
      destruct (init_step P mt k0 this cb name rest s q tid i Hi Hh Hk Hl)
        as (s1 & Hs1 & Hh1 & Hk1 & Hl1).
      rewrite Hs1 in Hs. injection Hs as <-. cbn [w_child w_sys] in *.
      injection Hc' as <- <-. rewrite Hk1 in Hk'. injection Hk' as <-.
      rewrite Hl1 in Hin'. apply signal_in_log_at in Hin'; [|exact Hne].
      assert (i = 9%nat) as -> by lia.
      left. rewrite Hl1, events_of_log_at by exact Hne. auto.
    + (* after the signal *)
      cbn [w_child w_sys] in *.
      specialize (Hw q qc k eq_refl Hk). cbn [w_child w_sys] in Hw.
      rewrite Hl in Hw. specialize (Hw (signal_in_ready mt this cb name q tid later)).
      rewrite <- Hl in Hw.
      destruct Hw as [(Hev & -> & Hname)|(wk & done & todo & Hcb & Hev & Hrem & Hsplit & Hname)].
      * (* the call of the work *)
        unfold step in Hs. cbn [w_child w_sys w_main w_creator] in Hs.
        rewrite child_pc_10 in Hs. destruct cb as [wk|]; [|discriminate].
        simpl in Hs. injection Hs as <-. cbn [w_child w_sys] in *.
        injection Hc' as <- <-. simpl in Hk'. rewrite Hk in Hk'. injection Hk' as <-.
        right. exists wk, [], (map snd (work_trace q (k_tid k) name wk)).
        split; [reflexivity|]. split; [|split; [|split]].
        -- simpl. rewrite events_of_app, Hev. simpl. now rewrite Z.eqb_refl.
        -- rewrite Hname. apply remaining_call.
        -- reflexivity.
        -- exact Hname.
      * destruct qc as [u|ex|X e kk]; [| discriminate |].
        -- (* the trampoline has returned: the thread ends *)
           unfold step in Hs. cbn [w_child w_sys w_main w_creator] in Hs.
           unfold finish in Hs. rewrite Hk in Hs.
           destruct (k_done k); [discriminate|]. injection Hs as <-.
           cbn [w_child w_sys] in *. injection Hc' as <- <-.
           simpl in Hk'. rewrite lookup_insert_eq in Hk'. injection Hk' as <-.
           right. exists wk, done, todo. simpl. auto.
        -- (* an effect of the work *)
           unfold step in Hs. cbn [w_child w_sys w_main w_creator advance] in Hs.
           destruct (handle P q e s) as [y s'| |] eqn:Hy; try discriminate.
           destruct (spawned P s e y) as [[q' arg]|]; [discriminate|].
           injection Hs as <-. cbn [w_child w_sys] in *. injection Hc' as <- <-.
           simpl in Hrem.
           destruct (own_effect (k_tid k) this (t_thread_name k) e)
             as [[[x evs] c]|] eqn:He; [|discriminate].
           destruct (remaining (k_tid k) this c (kk x)) as [tr|] eqn:Htr; [|discriminate].
           injection Hrem as <-.
           destruct (own_effect_handle P q e s y s' k this x evs c He Hk Htt Hy)
             as (-> & Hl' & Hc & k2 & Hk2 & Htid2 & Hname2).
           rewrite Hk' in Hk2. injection Hk2 as <-.
           right. exists wk, (done ++ evs), tr.
           split; [exact Hcb|]. split; [|split; [|split]].
           ++ rewrite Hl', events_of_app, Hev, events_of_own, Htid2.
              now rewrite <- app_assoc.
           ++ rewrite Htid2, Hname2. exact Htr.
           ++ rewrite Htid2, <- app_assoc. exact Hsplit.
           ++ rewrite Hname2, Hc, current_name_app, <- Hname. reflexivity.
Qed.

Lemma at_work_run P mt k0 this cb name rest sched :
  calm rest -> forall w,
  Inv mt k0 this cb name rest w -> at_work this cb name w ->
  at_work this cb name (run_sched P sched w).
Proof.
  intros Hrest. induction sched as [|x sched IH]; intros w Hinv Hw; simpl; [exact Hw|].
  destruct (step P x w) as [w1|] eqn:Hs; [|now apply IH].
  pose proof (inv_step P mt k0 this cb name rest Hrest x w w1 Hinv Hs) as Hinv1.
  apply IH; [exact Hinv1|]. exact (at_work_step P mt k0 this cb name rest x w w1 Hinv Hinv1 Hw Hs).
Qed.

Lemma at_work_from_start P mt k0 this cb name rest sched :
  calm rest ->
  at_work this cb name (run_sched P sched (start mt k0 this cb name rest)).
Proof.
  intros Hrest. apply (at_work_run P mt k0 this cb name rest sched Hrest).
  - apply inv_start.
  - intros pt pc k [=].
Qed.

Lemma invocations_log_at mt this cb name pt tid i :
  invocations (log_at mt this cb name pt tid i) = [].
Proof.
  unfold log_at. simpl. destruct i as [|[|[|[|[|[|[|[|[|[|i]]]]]]]]]]; reflexivity.
Qed.

Lemma no_call_in_init this cb name pt tid w :
  ~ In (EvInvoke w) (init_events this cb name pt tid).
Proof. simpl. intros H. repeat (destruct H as [H|H]; [discriminate|]). exact H. Qed.


(** C1: once the wait of the constructor has returned, the spawned thread
    has stored its kernel id, which is not 0, in [m_id], and has set its
    [t_thread] and [t_thread_name] before the wait returned: [t_thread] is
    the handle, and [t_thread_name] holds the name given at construction
    until the work, once it has been called, sets another. *)
Theorem C1_constructor_returns_after_initialization
    P mt k0 this cb name rest sched :
  calm rest ->
  In (mt, EvWait this) (log (w_sys (run_sched P sched (start mt k0 this cb name rest)))) ->
  exists pt pc h k l1 l2 wp,
    let w := run_sched P sched (start mt k0 this cb name rest) in
    w_child w = Some (pt, pc) /\ pt <> mt /\
    heap (w_sys w) !! this = Some h /\ threads (w_sys w) !! pt = Some k /\
    m_id h = k_tid k /\ m_id h <> 0 /\ t_thread k = Some this /\
    log (w_sys w) = l1 ++ (mt, EvWait this) :: l2 /\
    In (pt, EvTlsThread (Some this)) l1 /\
    In (pt, EvTlsName name) l1 /\
    In (pt, EvStoreId this (k_tid k)) l1 /\
    In (pt, EvSignal this) l1 /\
    events_of pt (log (w_sys w)) = init_events this cb name pt (k_tid k) ++ wp /\
    t_thread_name k = current_name name wp /\
    (invocations (log (w_sys w)) = [] -> wp = [] /\ t_thread_name k = name).
Proof.
  intros Hrest Hin.
  pose proof (inv_run P mt k0 this cb name rest Hrest sched _
                (inv_start mt k0 this cb name rest)) as Hinv.
  pose proof (at_work_from_start P mt k0 this cb name rest sched Hrest) as Hw.
  remember (run_sched P sched (start mt k0 this cb name rest)) as w eqn:HW. clear HW.
  destruct Hinv as [|s Hh Hk Hl|s rt n Hrt Hn Hl|s pt tid i Hi Hne Hpt Htid Hh Hk Hl
                   |s pt tid pm pc later h k Hne Htid Hh Hid Hk Hkt Htt Hl Hm Hc];
    simpl in Hin.
  - contradiction.
  - rewrite Hl in Hin. contradiction.
  - rewrite Hl in Hin. destruct Hin as [[=]|[]].
  - rewrite Hl in Hin. apply not_in_log_at in Hin; [discriminate|exact Hne].
  - specialize (Hw pt pc k eq_refl Hk). cbn [w_sys] in Hw.
    rewrite Hl in Hw. specialize (Hw (signal_in_ready mt this cb name pt tid later)).
    rewrite <- Hl in Hw.
    rewrite Hl in Hin. apply in_app_or in Hin as [Hin|Hin].
    + apply not_in_log_at in Hin; [discriminate|exact Hne].
    + apply in_split in Hin as (la & lb & Hlater).
      assert (Hstate : exists wp,
                 events_of pt (log s) = init_events this cb name pt (k_tid k) ++ wp /\
                 t_thread_name k = current_name name wp /\
                 (invocations (log s) = [] -> wp = [] /\ t_thread_name k = name)).
      { destruct Hw as [(Hev & _ & Hname)|(wk & done & todo & Hcb & Hev & _ & _ & Hname)].
        - exists []. rewrite app_nil_r. auto.
        - exists (EvInvoke wk :: done). split; [exact Hev|]. split; [exact Hname|].
          intros Hnone. exfalso.
          assert (Hcall : In (pt, wk) (invocations (log s))).
          { apply invocations_events_of. rewrite Hev. apply in_or_app. right. now left. }
          rewrite Hnone in Hcall. contradiction. }
      destruct Hstate as (wp & Hev & Hname & Hnone).
      exists pt, pc, h, k, (log_at mt this cb name pt tid 10 ++ la), lb, wp.
      cbn [w_child w_sys].
      split; [reflexivity|]. split; [exact Hne|]. split; [exact Hh|]. split; [exact Hk|].
      split; [congruence|]. split; [lia|]. split; [exact Htt|].
      split; [rewrite Hl, Hlater, app_assoc; reflexivity|].
      rewrite Hkt in Hev |- *. simpl. repeat split; tauto.
Qed.

(** On the concrete process, with [demo_sched]: the wait has returned, the
    thread 7 has stored its id 101 and has begun the work. *)
Lemma C1_witness :
  exists pt pc h k l1 l2 wp,
    let w := run_sched (always 0 7 101) demo_sched
               (start 1 main_thread 5 (Some demo_work) long_name (join 5)) in
    w_child w = Some (pt, pc) /\ pt <> 1 /\
    heap (w_sys w) !! 5%nat = Some h /\ threads (w_sys w) !! pt = Some k /\
    m_id h = k_tid k /\ m_id h <> 0 /\ t_thread k = Some 5%nat /\
    log (w_sys w) = l1 ++ (1, EvWait 5) :: l2 /\
    In (pt, EvTlsThread (Some 5%nat)) l1 /\
    In (pt, EvTlsName long_name) l1 /\
    In (pt, EvStoreId 5 (k_tid k)) l1 /\
    In (pt, EvSignal 5) l1 /\
    events_of pt (log (w_sys w)) = init_events 5 (Some demo_work) long_name pt (k_tid k) ++ wp /\
    t_thread_name k = current_name long_name wp /\
    (invocations (log (w_sys w)) = [] -> wp = [] /\ t_thread_name k = long_name).
Proof.
  apply (C1_constructor_returns_after_initialization (always 0 7 101) 1 main_thread 5%nat
           (Some demo_work) long_name (join 5) demo_sched).
  - apply calm_join.
  - vm_compute. tauto.
Defined.

(** C2: the callable given to the constructor is invoked once, by the spawned
    thread: once the constructor has returned, either that thread stands
    before the call and its next step makes it, leaving the body of the
    callable to run; or the callable has been invoked, once and by that
    thread, which has done a part of the body, has the rest of it still to
    do and can always go on, and when it has returned from the trampoline it
    has done all of the body, and nothing else. *)
Theorem C2_work_invoked_once_by_spawned_thread
    P mt k0 this w name rest sched :
  calm rest ->
  In (mt, EvWait this)
     (log (w_sys (run_sched P sched (start mt k0 this (Some w) name rest)))) ->
  exists pt pc k,
    let W := run_sched P sched (start mt k0 this (Some w) name rest) in
    w_child W = Some (pt, pc) /\ pt <> mt /\ threads (w_sys W) !! pt = Some k /\
    ((invocations (log (w_sys W)) = [(pt, w)] /\
      exists done todo,
        events_of pt (log (w_sys W))
        = init_events this (Some w) name pt (k_tid k) ++ EvInvoke w :: done /\
        done ++ todo = map snd (work_trace pt (k_tid k) name w) /\
        t_thread_name k = current_name name done /\
        remaining (k_tid k) this (t_thread_name k) pc = Some todo /\
        (forall u, pc = Ret u -> todo = [] /\ t_thread_name k = final_name name w) /\
        ((exists u, pc = Ret u) \/ exists W', step P Spawned W = Some W')) \/
     (invocations (log (w_sys W)) = [] /\
      pc = (invoke (Some w) ;; Ret tt) /\ t_thread_name k = name /\
      exists W', step P Spawned W = Some W' /\
                 w_child W' = Some (pt, body w ;; Ret tt) /\
                 invocations (log (w_sys W')) = [(pt, w)])).
Proof.
  intros Hrest Hin.
  pose proof (inv_run P mt k0 this (Some w) name rest Hrest sched _
                (inv_start mt k0 this (Some w) name rest)) as Hinv.
  pose proof (at_work_from_start P mt k0 this (Some w) name rest sched Hrest) as Hw.
  remember (run_sched P sched (start mt k0 this (Some w) name rest)) as W eqn:HW. clear HW.
  destruct Hinv as [|s Hh Hk Hl|s rt n Hrt Hn Hl|s pt tid i Hi Hne Hpt Htid Hh Hk Hl
                   |s pt tid pm pc later h k Hne Htid Hh Hid Hk Hkt Htt Hl Hm Hc];
    simpl in Hin.
  - contradiction.
  - rewrite Hl in Hin. contradiction.
  - rewrite Hl in Hin. destruct Hin as [[=]|[]].
  - rewrite Hl in Hin. apply not_in_log_at in Hin; [discriminate|exact Hne].
  - specialize (Hw pt pc k eq_refl Hk). cbn [w_sys] in Hw.
    rewrite Hl in Hw. specialize (Hw (signal_in_ready mt this (Some w) name pt tid later)).
    rewrite <- Hl in Hw.
    exists pt, pc, k. cbn [w_child w_sys]. split; [reflexivity|]. split; [exact Hne|].
    split; [exact Hk|].
    assert (Hcalls : invocations (log s) = invocations later).
    { now rewrite Hl, invocations_app, invocations_log_at. }
    destruct Hw as [(Hev & Hpc & Hname)|(wk & done & todo & [= <-] & Hev & Hrem & Hsplit & Hname)].
    + (* about to call the work *)
      right.
      assert (Hnone : invocations (log s) = []).
      { destruct Hc as [[_ Hi]|[_ (w' & _ & Hi)]]; [congruence|]. exfalso.
        assert (Hcall : In (pt, w') (invocations (log s)))
          by (rewrite Hcalls, Hi; now left).
        apply invocations_events_of in Hcall. rewrite Hev in Hcall.
        exact (no_call_in_init _ _ _ _ _ _ Hcall). }
      split; [exact Hnone|]. rewrite Hpc, child_pc_10. split; [reflexivity|].
      split; [exact Hname|].
      unfold step. cbn [w_child w_sys w_main w_creator]. simpl.
      eexists. split; [reflexivity|]. split; [reflexivity|]. simpl.
      rewrite invocations_app, Hnone. reflexivity.
    + (* in the work, or past it *)
      left. split.
      { destruct Hc as [[_ Hi]|[_ (w' & [= <-] & Hi)]]; [|congruence]. exfalso.
        assert (Hcall : In (pt, w) (invocations (log s))).
        { apply invocations_events_of. rewrite Hev. apply in_or_app. right. now left. }
        rewrite Hcalls, Hi in Hcall. contradiction. }
      exists done, todo. split; [exact Hev|]. split; [exact Hsplit|].
      split; [exact Hname|]. split; [exact Hrem|]. split.
      * intros u ->. simpl in Hrem. injection Hrem as <-.
        split; [reflexivity|]. rewrite app_nil_r in Hsplit.
        rewrite Hname, Hsplit. apply current_name_work.
      * destruct pc as [u|ex|X e kk]; [left; eauto|discriminate|right].
        simpl in Hrem.
        destruct (own_effect (k_tid k) this (t_thread_name k) e) as [r|] eqn:He;
          [|discriminate].
        destruct (own_effect_enabled P pt e s k h _ _ _ r He Hk Hh) as (y & s' & Hy & Hsp).
        unfold step. cbn [w_child w_sys w_main w_creator advance]. rewrite Hy, Hsp. eauto.
Qed.

(** On the concrete process, with [join_sched]. *)
Lemma C2_witness :
  exists pt pc k,
    let W := run_sched (always 0 7 101) join_sched
               (start 1 main_thread 5 (Some demo_work) long_name (join 5)) in
    w_child W = Some (pt, pc) /\ pt <> 1 /\ threads (w_sys W) !! pt = Some k /\
    ((invocations (log (w_sys W)) = [(pt, demo_work)] /\
      exists done todo,
        events_of pt (log (w_sys W))
        = init_events 5 (Some demo_work) long_name pt (k_tid k) ++ EvInvoke demo_work :: done /\
        done ++ todo = map snd (work_trace pt (k_tid k) long_name demo_work) /\
        t_thread_name k = current_name long_name done /\
        remaining (k_tid k) 5 (t_thread_name k) pc = Some todo /\
        (forall u, pc = Ret u -> todo = [] /\ t_thread_name k = final_name long_name demo_work) /\
        ((exists u, pc = Ret u) \/ exists W', step (always 0 7 101) Spawned W = Some W')) \/
     (invocations (log (w_sys W)) = [] /\
      pc = (invoke (Some demo_work) ;; Ret tt) /\ t_thread_name k = long_name /\
      exists W', step (always 0 7 101) Spawned W = Some W' /\
                 w_child W' = Some (pt, body demo_work ;; Ret tt) /\
                 invocations (log (w_sys W')) = [(pt, demo_work)])).
Proof.
  apply (C2_work_invoked_once_by_spawned_thread (always 0 7 101) 1 main_thread 5%nat
           demo_work long_name (join 5) join_sched).
  - apply calm_join.
  - vm_compute. tauto.
Defined.

(** ** GetThis and join, for the two threads *)

Lemma GetThis_reads P t s k :
  threads s !! t = Some k -> exec P t GetThis s = Returned (t_thread k) s.
Proof. intros Hk. unfold GetThis. simpl. now rewrite (on_self_at _ _ _ _ Hk). Qed.

(** X11: whatever the schedule, [GetThis()] on the creating thread returns
    what it returned before the construction, and once the constructor has
    returned [GetThis()] on the spawned thread returns the handle. *)
Theorem GetThis_of_both_threads P mt k0 this cb name rest sched :
  calm rest ->
  let W := run_sched P sched (start mt k0 this cb name rest) in
  exec P mt GetThis (w_sys W) = Returned (t_thread k0) (w_sys W) /\
  (In (mt, EvWait this) (log (w_sys W)) ->
   exists pt pc, w_child W = Some (pt, pc) /\ pt <> mt /\
                 exec P pt GetThis (w_sys W) = Returned (Some this) (w_sys W)).
Proof.
  intros Hrest W.
  destruct (reached_from_start P mt k0 this cb name rest Hrest sched)
    as (Hinv & (km & Hkm & Htt) & _ & _).
  fold W in Hinv, Hkm. split.
  - destruct (inv_next mt k0 this cb name rest W Hinv) as (Hmt & _).
    rewrite Hmt in Hkm. rewrite (GetThis_reads P mt _ km Hkm). now rewrite Htt.
  - intros Hin. clearbody W.
    destruct Hinv as [|s Hh Hk Hl|s rt n Hrt Hn Hl|s pt tid i Hi Hne Hpt Htid Hh Hk Hl
                     |s pt tid pm pc later h k Hne Htid' Hh Hid Hk Hkt Htt' Hl Hm Hc];
      simpl in Hin.
    + contradiction.
    + rewrite Hl in Hin. contradiction.
    + rewrite Hl in Hin. destruct Hin as [[=]|[]].
    + rewrite Hl in Hin. apply not_in_log_at in Hin; [discriminate|exact Hne].
    + exists pt, pc. cbn [w_child w_sys]. split; [reflexivity|]. split; [exact Hne|].
      rewrite (GetThis_reads P pt s k Hk). now rewrite Htt'.
Qed.

(** On the concrete process, with [demo_sched]. *)
Lemma GetThis_of_both_threads_witness :
  let W := run_sched (always 0 7 101) demo_sched
             (start 1 main_thread 5 (Some demo_work) long_name (join 5)) in
  exec (always 0 7 101) 1 GetThis (w_sys W) = Returned None (w_sys W) /\
  (In (1, EvWait 5) (log (w_sys W)) ->
   exists pt pc, w_child W = Some (pt, pc) /\ pt <> 1 /\
                 exec (always 0 7 101) pt GetThis (w_sys W)
                 = Returned (Some 5%nat) (w_sys W)).
Proof.
  apply (GetThis_of_both_threads (always 0 7 101) 1 main_thread 5%nat (Some demo_work)
           long_name (join 5) demo_sched).
  apply calm_join.
Defined.

(** X12: whatever the schedule, once a [pthread_join] of the spawned thread
    has succeeded that thread has returned from the trampoline and has
    ended, and the callable was invoked, once and by it, and has run to its
    end: the thread has left all the entries of the work, after those of the
    trampoline, and its [t_thread_name] is the name the work set last. *)
Theorem join_returns_after_the_work P mt k0 this cb name rest sched t pt pc :
  calm rest ->
  let W := run_sched P sched (start mt k0 this cb name rest) in
  w_child W = Some (pt, pc) ->
  In (t, EvJoin pt 0) (log (w_sys W)) ->
  (exists u, pc = Ret u) /\
  exists k, threads (w_sys W) !! pt = Some k /\ k_done k = true /\
    forall w, cb = Some w ->
      invocations (log (w_sys W)) = [(pt, w)] /\
      events_of pt (log (w_sys W))
      = init_events this cb name pt (k_tid k)
        ++ EvInvoke w :: map snd (work_trace pt (k_tid k) name w) /\
      t_thread_name k = final_name name w.
Proof.
  intros Hrest W Hchild Hin.
  destruct (reached_from_start P mt k0 this cb name rest Hrest sched)
    as (Hinv & _ & Hend & Hjoin).
  pose proof (at_work_from_start P mt k0 this cb name rest sched Hrest) as Hw.
  fold W in Hinv, Hend, Hjoin, Hw.
  destruct (Hjoin t pt Hin) as (k & Hk & Hd).
  destruct (Hend pt pc k Hchild Hk Hd) as [u ->].
  split; [eauto|]. exists k. split; [exact Hk|]. split; [exact Hd|].
  intros w ->. specialize (Hw pt (Ret u) k Hchild Hk). clearbody W.
  destruct Hinv as [|s Hh' Hk' Hl|s rt n Hrt Hn Hl|s q tid i Hi Hne Hpt Htid Hh' Hk' Hl
                   |s q tid pm qc later h kq Hne Htid' Hh' Hid Hk' Hkt Htt' Hl Hm Hc];
    try discriminate.
  - exfalso. injection Hchild as _ Hpc. revert Hpc.
    destruct i as [|[|[|[|[|[|[|[|[|[|i]]]]]]]]]]; [..|lia].
    + now rewrite (child_pc_0 this (Some w) name q tid).
    + now rewrite (child_pc_1 this (Some w) name q tid).
    + now rewrite (child_pc_2 this (Some w) name q tid).
    + now rewrite (child_pc_3 this (Some w) name q tid).
    + now rewrite (child_pc_4 this (Some w) name q tid).
    + now rewrite (child_pc_5 this (Some w) name q tid).
    + now rewrite (child_pc_6 this (Some w) name q tid).
    + now rewrite (child_pc_7 this (Some w) name q tid).
    + now rewrite (child_pc_8 this (Some w) name q tid).
    + now rewrite (child_pc_9 this (Some w) name q tid).
  - injection Hchild as -> ->. cbn [w_sys] in *.
    rewrite Hl in Hw. specialize (Hw (signal_in_ready mt this (Some w) name pt tid later)).
    rewrite <- Hl in Hw.
    destruct Hw as [(_ & Hpc & _)|(wk & done & todo & [= <-] & Hev & Hrem & Hsplit & Hname)].
    { rewrite child_pc_10 in Hpc. discriminate. }
    simpl in Hrem. injection Hrem as <-. rewrite app_nil_r in Hsplit. subst done.
    split; [|split; [exact Hev|rewrite Hname; apply current_name_work]].
    rewrite Hl, invocations_app.
    destruct Hc as [[Hpc _]|[_ (w' & [= <-] & Hi)]].
    + rewrite child_pc_10 in Hpc. discriminate.
    + now rewrite Hi.
Qed.

(** On the concrete process, with [join_sched]. *)
Lemma join_returns_after_the_work_witness :
  let W := run_sched (always 0 7 101) join_sched
             (start 1 main_thread 5 (Some demo_work) long_name (join 5)) in
  (exists u, Ret tt = Ret u) /\
  exists k, threads (w_sys W) !! 7 = Some k /\ k_done k = true /\
    forall w, Some demo_work = Some w ->
      invocations (log (w_sys W)) = [(7, w)] /\
      events_of 7 (log (w_sys W))
      = init_events 5 (Some demo_work) long_name 7 (k_tid k)
        ++ EvInvoke w :: map snd (work_trace 7 (k_tid k) long_name w) /\
      t_thread_name k = final_name long_name w.
Proof.
  apply (join_returns_after_the_work (always 0 7 101) 1 main_thread 5%nat (Some demo_work)
           long_name (join 5) join_sched 1 7 (Ret tt)).
  - apply calm_join.
  - vm_compute. reflexivity.
  - vm_compute. tauto.
Defined.

(** On the concrete process. *)
Lemma handshake_completes_witness :
  exists s',
    run_sched (always 0 7 101) ([Creator; Creator] ++ repeat Spawned 10 ++ [Creator])
      (start 1 main_thread 5 (Some demo_work) long_name (join 5))
    = mkWorld 1 s' (join 5)
        (Some (7, child_pc 5 (init_answers (Some demo_work) long_name 7 101))) /\
    log s' = log_at 1 5 (Some demo_work) long_name 7 101 10 ++ [(1, EvWait 5)].
Proof.
  apply (handshake_completes (always 0 7 101) 1 main_thread 5%nat (Some demo_work)
           long_name (join 5)); [reflexivity|discriminate|discriminate|reflexivity].
Defined.

(** On the concrete process, with [demo_sched]. *)
Lemma invoked_at_most_once_witness :
  let l := invocations
             (log (w_sys (run_sched (always 0 7 101) demo_sched
                            (start 1 main_thread 5 (Some demo_work) long_name (join 5))))) in
  l = [] \/ exists pt, pt <> 1 /\ l = [(pt, demo_work)].
Proof.
  apply (invoked_at_most_once (always 0 7 101) 1 main_thread 5%nat demo_work long_name
           (join 5) demo_sched).
  apply calm_join.
Defined.
